(** * nba-coach-sentiment: player-mention extraction and rule-based scoring

    A shallow embedding of [sentiment_analysis.py]: the roster index
    [PLAYER_TO_TEAM], the mention locator [extract_player_mentions], the
    rule-based scorer [analyze_sentiment_rules], the record store written by
    [save_sentiment_results] and the aggregation [compute_player_trends].

    Modelling conventions.
    - Text is ASCII: a Python [str] is a [string] of bytes below 128.  Bytes
      from 128 up are carried along unchanged (caseless, neither space nor
      word character).
    - A Python [float] is an IEEE binary64, Rocq's primitive [float]; an
      [int] is a [Z], converted with [float_of_int] where Python converts.
    - A Python [dict] is an association list in insertion order with unique
      keys ([Dict]); iteration order is list order.
    - The SQLite table is a list of rows in rowid order.  The two queries
      over it are answered from the index [idx_player_date] on
      (player_name, date), and their rows come in the order of that index.
    - A value that is a [str] or [None] is an [optional_str]. *)

From Stdlib Require Import ZArith List String Ascii Bool Arith Lia Floats.
Import ListNotations.

#[local] Set Warnings "-inexact-float".
#[local] Open Scope string_scope.

(** ** Python string operations, on ASCII text *)

Module PyStr.

Definition code (c : ascii) : nat := nat_of_ascii c.

Definition between (lo hi : nat) (c : ascii) : bool :=
  (lo <=? code c)%nat && (code c <=? hi)%nat.

Definition is_upper : ascii -> bool := between 65 90.
Definition is_lower : ascii -> bool := between 97 122.
Definition is_digit : ascii -> bool := between 48 57.
Definition is_alpha (c : ascii) : bool := is_upper c || is_lower c.

(** [str.isspace] on one ASCII character: TAB, LF, VT, FF, CR, the four
    separators FS, GS, RS, US, and the space. *)
Definition is_space (c : ascii) : bool :=
  between 9 13 c || between 28 31 c || (code c =? 32)%nat.

(** The regular-expression class [\w] on ASCII. *)
Definition is_word (c : ascii) : bool :=
  is_alpha c || is_digit c || (code c =? 95)%nat.

Definition lower_char (c : ascii) : ascii :=
  if is_upper c then ascii_of_nat (code c + 32) else c.

Definition upper_char (c : ascii) : ascii :=
  if is_lower c then ascii_of_nat (code c - 32) else c.

(** [s.lower()] *)
Fixpoint lower (s : string) : string :=
  match s with
  | EmptyString => EmptyString
  | String c r => String (lower_char c) (lower r)
  end.

(** [s.title()]: a cased character is upper-cased when the character before
    it is not cased, and lower-cased otherwise. *)
Fixpoint title_from (previous_is_cased : bool) (s : string) : string :=
  match s with
  | EmptyString => EmptyString
  | String c r =>
      if is_alpha c
      then String (if previous_is_cased then lower_char c else upper_char c)
                  (title_from true r)
      else String c (title_from false r)
  end.

Definition title (s : string) : string := title_from false s.

(** [len(s)] *)
Definition len (s : string) : nat := String.length s.

(** [s[:n]] for [n >= 0] *)
Fixpoint take (n : nat) (s : string) : string :=
  match n, s with
  | O, _ => EmptyString
  | S _, EmptyString => EmptyString
  | S k, String c r => String c (take k r)
  end.

(** [s[n:]] for [n >= 0] *)
Fixpoint drop (n : nat) (s : string) : string :=
  match n, s with
  | O, _ => s
  | S _, EmptyString => EmptyString
  | S k, String _ r => drop k r
  end.

(** [s.startswith(p)] *)
Fixpoint startswith (s p : string) : bool :=
  match p, s with
  | EmptyString, _ => true
  | String _ _, EmptyString => false
  | String a p', String b s' => Ascii.eqb a b && startswith s' p'
  end.

(** [needle in hay]: substring test, no word boundary. *)
Fixpoint contains (needle hay : string) : bool :=
  startswith hay needle ||
  match hay with
  | EmptyString => false
  | String _ r => contains needle r
  end.

(** [s.endswith(p)] *)
Definition endswith (s p : string) : bool :=
  (len p <=? len s)%nat && String.eqb (drop (len s - len p) s) p.

Fixpoint lstrip (s : string) : string :=
  match s with
  | EmptyString => EmptyString
  | String c r => if is_space c then lstrip r else s
  end.

(** Drops trailing white space: a character is kept when something other
    than white space follows it or it is not white space itself. *)
Fixpoint rstrip (s : string) : string :=
  match s with
  | EmptyString => EmptyString
  | String c r =>
      match rstrip r with
      | EmptyString => if is_space c then EmptyString else String c EmptyString
      | r' => String c r'
      end
  end.

(** [s.strip()] *)
Definition strip (s : string) : string := rstrip (lstrip s).

(** [s.split()]: the maximal runs of characters that are not white space.
    [word] is the run being read, in reverse. *)
Fixpoint split_from (word : list ascii) (s : string) : list string :=
  let flush (rest : list string) :=
    match word with
    | [] => rest
    | _ => string_of_list_ascii (rev word) :: rest
    end in
  match s with
  | EmptyString => flush []
  | String c r =>
      if is_space c then flush (split_from [] r) else split_from (c :: word) r
  end.

Definition split (s : string) : list string := split_from [] s.

End PyStr.

(** ** Python values that may be [None] *)

Module PyOptional.

(** A [str] or [None].  Where such a value is expected, a text stands for
    itself. *)
Inductive optional_str : Type :=
  | Str (s : string)
  | NoneValue.

Coercion Str : string >-> optional_str.

End PyOptional.

Import PyOptional.

(** ** Python numbers *)

Module PyNum.

#[local] Open Scope float_scope.

(** [float(z)] for an [int] below [2^63] in absolute value. *)
Definition float_of_int (z : Z) : float :=
  if (z <? 0)%Z then - of_uint63 (Uint63.of_Z (- z)) else of_uint63 (Uint63.of_Z z).

(** [min(a, b)] keeps its first argument unless the second is smaller. *)
Definition py_min (a b : float) : float := if b <? a then b else a.

(** [max(a, b)] keeps its first argument unless the second is larger. *)
Definition py_max (a b : float) : float := if a <? b then b else a.

End PyNum.

(** ** The rule-based scorer *)

Module Scorer.

Import PyStr PyNum.

Definition POSITIVE_INDICATORS : list string :=
  [ "played great"; "played well"; "excellent"; "fantastic"; "amazing";
    "incredible"; "outstanding"; "tremendous"; "phenomenal"; "brilliant";
    "stepped up"; "came through"; "delivered"; "dominated"; "took over";
    "earned"; "deserves"; "trust"; "confident in"; "believe in";
    "going to play"; "more minutes"; "expanded role"; "starting";
    "love what he"; "love his"; "really like"; "impressed";
    "improved"; "getting better"; "growing"; "progressing"; "developing";
    "matured"; "evolved"; "next level"; "breakthrough";
    "leader"; "vocal"; "sets the tone"; "brings energy"; "competitor";
    "professional"; "works hard"; "first one in"; "dedicated";
    "great defense"; "shot well"; "efficient"; "smart plays";
    "controlled the game"; "made winning plays"; "clutch" ].

Definition NEGATIVE_INDICATORS : list string :=
  [ "struggled"; "had a tough"; "didn't play well"; "off night";
    "not his best"; "needs to be better"; "got to do more";
    "unacceptable"; "disappointed"; "frustrating"; "concerning";
    "won't play"; "less minutes"; "coming off bench"; "reduced role";
    "not ready"; "not there yet"; "needs work"; "has to earn";
    "look at other options"; "evaluate"; "figure out";
    "focus"; "concentration"; "attention to detail"; "discipline";
    "can't have"; "not acceptable"; "expect more"; "demand more";
    "day to day"; "questionable"; "dealing with"; "managing";
    "turnovers"; "defensive lapses"; "shot selection"; "forcing";
    "out of control"; "decision making"; "costly mistakes" ].

Definition NEUTRAL_INDICATORS : list string :=
  [ "we'll see"; "evaluate"; "day by day"; "game to game";
    "depends on"; "matchup"; "situation"; "look at film" ].

(** The loop [for indicator in L: if indicator in context_lower: append]. *)
Definition found (indicators : list string) (context_lower : string) : list string :=
  filter (fun indicator => contains indicator context_lower) indicators.

#[local] Open Scope float_scope.

(** The function from "# Calculate score" on, given the three lists the
    loops collected. *)
Definition calculate (positive_found negative_found neutral_found : list string)
  : float * string * float * list string :=
  let pos_weight := Z.of_nat (List.length positive_found) in
  let neg_weight := Z.of_nat (List.length negative_found) in
  let total := float_of_int (pos_weight + neg_weight) + 0.001 in
  if ((pos_weight =? 0) && (neg_weight =? 0))%Z
  then (0.0, "neutral"%string, 0.3,
        match neutral_found with
        | [] => ["no clear indicators"%string]
        | _ => neutral_found
        end)
  else
    let score := float_of_int (pos_weight - neg_weight) / total in
    let score := py_max (-1) (py_min 1 score) in
    let label :=
      if 0.2 <? score then "positive"%string
      else if score <? -0.2 then "negative"%string
      else "neutral"%string in
    let confidence := py_min 0.9 (0.4 + total * 0.1) in
    let indicators := (positive_found ++ negative_found)%list in
    (score, label, confidence, indicators).

(** [analyze_sentiment_rules(context)]: (score, label, confidence,
    indicators). *)
Definition analyze_sentiment_rules (context : string)
  : float * string * float * list string :=
  let context_lower := lower context in
  let positive_found := found POSITIVE_INDICATORS context_lower in
  let negative_found := found NEGATIVE_INDICATORS context_lower in
  let neutral_found := found NEUTRAL_INDICATORS context_lower in
  calculate positive_found negative_found neutral_found.

Definition score_of (r : float * string * float * list string) : float :=
  let '(score, _, _, _) := r in score.
Definition label_of (r : float * string * float * list string) : string :=
  let '(_, label, _, _) := r in label.
Definition confidence_of (r : float * string * float * list string) : float :=
  let '(_, _, confidence, _) := r in confidence.
Definition indicators_of (r : float * string * float * list string) : list string :=
  let '(_, _, _, indicators) := r in indicators.

End Scorer.

(** ** Python dictionaries with string keys and values *)

Module Dict.

Definition t : Type := list (string * string).

(** [d.get(k)] *)
Fixpoint get (k : string) (d : t) : option string :=
  match d with
  | [] => None
  | (k', v) :: r => if String.eqb k k' then Some v else get k r
  end.

(** [k in d] *)
Definition mem (k : string) (d : t) : bool :=
  match get k d with Some _ => true | None => false end.

(** [d[k] = v]: a key already present keeps its place in the iteration
    order, a new key goes last. *)
Fixpoint set (k v : string) (d : t) : t :=
  match d with
  | [] => [(k, v)]
  | (k', v') :: r => if String.eqb k k' then (k, v) :: r else (k', v') :: set k v r
  end.

End Dict.

(** ** The roster table and the roster index *)

Module Roster.

Import PyStr.

Definition NBA_ROSTERS : list (string * list string) :=
  [ ("Boston Celtics",
     [ "Jayson Tatum"; "Jaylen Brown"; "Derrick White"; "Jrue Holiday";
       "Kristaps Porzingis"; "Al Horford"; "Payton Pritchard"; "Sam Hauser" ]);
    ("Los Angeles Lakers",
     [ "LeBron James"; "Anthony Davis"; "Austin Reaves"; "D'Angelo Russell";
       "Rui Hachimura"; "Gabe Vincent"; "Jarred Vanderbilt"; "Max Christie" ]);
    ("Golden State Warriors",
     [ "Stephen Curry"; "Draymond Green"; "Andrew Wiggins"; "Klay Thompson";
       "Jonathan Kuminga"; "Kevon Looney"; "Chris Paul"; "Brandin Podziemski" ]);
    ("Denver Nuggets",
     [ "Nikola Jokic"; "Jamal Murray"; "Michael Porter Jr"; "Aaron Gordon";
       "Kentavious Caldwell-Pope"; "Reggie Jackson"; "Christian Braun" ]);
    ("Milwaukee Bucks",
     [ "Giannis Antetokounmpo"; "Damian Lillard"; "Khris Middleton";
       "Brook Lopez"; "Bobby Portis"; "Malik Beasley"; "Pat Connaughton" ]);
    ("Phoenix Suns",
     [ "Kevin Durant"; "Devin Booker"; "Bradley Beal"; "Jusuf Nurkic";
       "Grayson Allen"; "Eric Gordon"; "Royce O'Neale" ]);
    ("Philadelphia 76ers",
     [ "Joel Embiid"; "Tyrese Maxey"; "Paul George"; "Kelly Oubre Jr";
       "Tobias Harris"; "De'Anthony Melton"; "Nicolas Batum" ]);
    ("Miami Heat",
     [ "Jimmy Butler"; "Bam Adebayo"; "Tyler Herro"; "Terry Rozier";
       "Jaime Jaquez Jr"; "Duncan Robinson"; "Caleb Martin" ]);
    ("Dallas Mavericks",
     [ "Luka Doncic"; "Kyrie Irving"; "Daniel Gafford"; "Dereck Lively II";
       "Tim Hardaway Jr"; "Josh Green"; "Maxi Kleber" ]);
    ("New York Knicks",
     [ "Jalen Brunson"; "Julius Randle"; "OG Anunoby"; "Donte DiVincenzo";
       "Josh Hart"; "Mitchell Robinson"; "Isaiah Hartenstein" ]) ].

(** [l[-1]]; [None] stands for the [IndexError] on an empty list. *)
Fixpoint last_item (l : list string) : option string :=
  match l with
  | [] => None
  | [x] => Some x
  | _ :: r => last_item r
  end.

(** [player.split()[-1].lower()] *)
Definition last_name (player : string) : option string :=
  option_map lower (last_item (split player)).

(** The body of the inner loop, for one player of one team.  [None] is the
    [IndexError] of a name without any token. *)
Definition register (team player : string) (PLAYER_TO_TEAM : Dict.t) : option Dict.t :=
  let PLAYER_TO_TEAM := Dict.set (lower player) team PLAYER_TO_TEAM in
  match last_name player with
  | None => None
  | Some last_name =>
      if negb (Dict.mem last_name PLAYER_TO_TEAM)
      then Some (Dict.set last_name team PLAYER_TO_TEAM)
      else Some PLAYER_TO_TEAM
  end.

(** The two loops run over the table flattened to (team, player) pairs, in
    table order. *)
Definition entries (rosters : list (string * list string)) : list (string * string) :=
  flat_map (fun '(team, players) => map (fun player => (team, player)) players) rosters.

Fixpoint register_all (es : list (string * string)) (PLAYER_TO_TEAM : Dict.t)
  : option Dict.t :=
  match es with
  | [] => Some PLAYER_TO_TEAM
  | (team, player) :: r =>
      match register team player PLAYER_TO_TEAM with
      | None => None
      | Some d => register_all r d
      end
  end.

(** The reverse lookup built at import time from a roster table. *)
Definition build_player_to_team (rosters : list (string * list string)) : option Dict.t :=
  register_all (entries rosters) [].

Definition PLAYER_TO_TEAM : Dict.t :=
  match build_player_to_team NBA_ROSTERS with
  | Some d => d
  | None => []
  end.

End Roster.

(** ** The mention locator *)

Module Locator.

Import PyStr.

Record Mention : Type := mkMention
  { player_name : string;
    team : string;
    context : string;
    position : nat }.

(** [re.split(r'[.!?]+', transcript)]: [unit] is the unit being read, in
    reverse; [in_run] says that the previous character was a separator. *)
Definition is_separator (c : ascii) : bool :=
  (code c =? 46)%nat || (code c =? 33)%nat || (code c =? 63)%nat.

Fixpoint re_split_from (unit : list ascii) (in_run : bool) (s : string) : list string :=
  match s with
  | EmptyString => [string_of_list_ascii (rev unit)]
  | String c r =>
      if is_separator c
      then if in_run
           then re_split_from [] true r
           else string_of_list_ascii (rev unit) :: re_split_from [] true r
      else re_split_from (c :: unit) false r
  end.

Definition re_split (transcript : string) : list string :=
  re_split_from [] false transcript.

(** [\b] between two neighbouring characters, [None] being an end of the
    text. *)
Definition is_word_opt (c : option ascii) : bool :=
  match c with Some c => is_word c | None => false end.

Definition word_boundary (before after : option ascii) : bool :=
  xorb (is_word_opt before) (is_word_opt after).

(** Whether [\b name \b] matches where [s] starts, [prev] being the character
    before it. *)
Definition matches_here (name : string) (prev : option ascii) (s : string) : bool :=
  let n := len name in
  word_boundary prev (String.get 0 s)
  && startswith s name
  && word_boundary (match n with O => prev | S k => String.get k s end) (String.get n s).

(** [re.finditer(r'\b' + re.escape(name) + r'\b', text)], as the start
    offsets of the matches, left to right and without overlap: after a match
    the search goes on behind it ([skip] characters are passed over). *)
Fixpoint finditer_from (name : string) (prev : option ascii) (pos skip : nat)
    (s : string) : list nat :=
  match s with
  | EmptyString =>
      match skip with
      | O => if matches_here name prev s then [pos] else []
      | S _ => []
      end
  | String c r =>
      match skip with
      | S k => finditer_from name (Some c) (S pos) k r
      | O =>
          if matches_here name prev s
          then pos :: finditer_from name (Some c) (S pos) (len name - 1) r
          else finditer_from name (Some c) (S pos) 0 r
      end
  end.

Definition finditer (name text : string) : list nat :=
  finditer_from name None 0 0 text.

(** The loop that finds the sentence holding offset [start_pos]. *)
Fixpoint sentence_at (sentences : list string) (char_count start_pos : nat) : string :=
  match sentences with
  | [] => EmptyString
  | sentence :: rest =>
      let char_count := char_count + len sentence + 1 in
      if (start_pos <? char_count)%nat
      then strip sentence
      else sentence_at rest char_count start_pos
  end.

(** [sentences.index(context) if context in sentences else -1] *)
Fixpoint index_from (i : Z) (x : string) (l : list string) : Z :=
  match l with
  | [] => (-1)%Z
  | y :: r => if String.eqb y x then i else index_from (i + 1)%Z x r
  end.

(** [sentences[i]] for an index in range. *)
Definition item (sentences : list string) (i : Z) : string :=
  nth (Z.to_nat i) sentences EmptyString.

(** "Expand context to nearby sentences if short". *)
Definition expand (sentences : list string) (context : string) : string :=
  if (len context <? 100)%nat
  then
    let sent_idx := index_from 0 context sentences in
    let context :=
      if (0 <? sent_idx)%Z
      then strip (item sentences (sent_idx - 1)) ++ ". " ++ context
      else context in
    let context :=
      if (sent_idx <? Z.of_nat (List.length sentences) - 1)%Z
      then context ++ ". " ++ strip (item sentences (sent_idx + 1))
      else context in
    context
  else context.

Section WithIndex.

Variable PLAYER_TO_TEAM : Dict.t.

(** The loop [for full, t in PLAYER_TO_TEAM.items(): ... break]. *)
Fixpoint full_name_in (items : Dict.t) (player_name team : string) : string :=
  match items with
  | [] => player_name
  | (full, t) :: rest =>
      if String.eqb t team && endswith full player_name
         && (len player_name <? len full)%nat
      then full
      else full_name_in rest player_name team
  end.

Definition full_name (player_name team : string) : string :=
  full_name_in PLAYER_TO_TEAM player_name team.

(** The dict appended for one match at [start_pos]. *)
Definition mention_at (sentences : list string) (player_name team : string)
    (start_pos : nat) : Mention :=
  let context := sentence_at sentences 0 start_pos in
  let context := expand sentences context in
  {| player_name := title (full_name player_name team);
     team := team;
     context := take 500 context;
     position := start_pos |}.

Definition all_mentions (transcript : string) : list Mention :=
  let transcript_lower := lower transcript in
  let sentences := re_split transcript in
  flat_map
    (fun '(player_name, team) =>
       map (mention_at sentences player_name team)
           (finditer player_name transcript_lower))
    PLAYER_TO_TEAM.

Definition key_eqb (a b : string * string) : bool :=
  String.eqb (fst a) (fst b) && String.eqb (snd a) (snd b).

(** "Deduplicate mentions of same player in same context". *)
Fixpoint unique_from (seen : list (string * string)) (mentions : list Mention)
  : list Mention :=
  match mentions with
  | [] => []
  | m :: rest =>
      let key := (player_name m, take 100 (context m)) in
      if existsb (key_eqb key) seen
      then unique_from seen rest
      else m :: unique_from (key :: seen) rest
  end.

(** [extract_player_mentions(transcript, coach_team)]; [coach_team] is not
    read by the function. *)
Definition extract_player_mentions (transcript : string) (coach_team : option string)
  : list Mention :=
  unique_from [] (all_mentions transcript).

End WithIndex.

End Locator.

(** ** The sentiment store *)

Module Store.

(** The dataclass [PlayerMention].  The field [coach_name] is annotated
    [str], but it holds whatever the transcript file gives, which may be
    [None]; SQLite stores that as NULL and gives it back as [None]. *)
Record PlayerMention : Type := mkPlayerMention
  { player_name : string;
    team : string;
    context : string;
    sentiment_score : float;
    sentiment_label : string;
    confidence : float;
    indicators : list string;
    video_id : string;
    coach_name : optional_str;
    date : string }.

(** A row of [player_sentiments].  The [indicators] column holds
    [json.dumps] of the list; the row keeps the list itself. *)
Record Row : Type := mkRow
  { id : Z;
    mention : PlayerMention;
    analyzed_at : string }.

(** The table in rowid order, and the largest rowid handed out so far (the
    [AUTOINCREMENT] counter). *)
Record Table : Type := mkTable
  { rows : list Row;
    last_id : Z }.

Definition empty : Table := {| rows := []; last_id := 0 |}.

(** [UNIQUE(video_id, player_name, context)]: whether two mentions collide. *)
Definition same_key (a b : PlayerMention) : bool :=
  String.eqb (video_id a) (video_id b)
  && String.eqb (player_name a) (player_name b)
  && String.eqb (context a) (context b).

(** [INSERT OR REPLACE INTO player_sentiments ... VALUES (...)]: the rows
    that collide with the new one on the unique key are deleted, then the
    new row is stored under a fresh rowid.  The statement raises no
    [IntegrityError], so the handler around it never runs.  The two REAL
    columns are kept as given: that is what SQLite does for every number
    but a NaN (stored as NULL) and the negative zero (read back as 0.0),
    and the rule-based scorer yields neither
    ([rules_numbers_kept_by_sqlite]). *)
Definition insert_or_replace (m : PlayerMention) (now : string) (db : Table) : Table :=
  let kept := filter (fun r => negb (same_key (mention r) m)) (rows db) in
  let new_id := (last_id db + 1)%Z in
  {| rows := kept ++ [ {| id := new_id; mention := m; analyzed_at := now |} ];
     last_id := new_id |}.

(** [save_sentiment_results(mentions)] on the table [db]; [utcnow i] is what
    [datetime.utcnow().isoformat()] returns at the insert of the [i]-th
    mention of the batch. *)
Fixpoint save_from (utcnow : nat -> string) (i : nat) (mentions : list PlayerMention)
    (db : Table) : Table :=
  match mentions with
  | [] => db
  | m :: rest => save_from utcnow (S i) rest (insert_or_replace m (utcnow i) db)
  end.

Definition save_sentiment_results (utcnow : nat -> string)
    (mentions : list PlayerMention) (db : Table) : Table :=
  save_from utcnow 0 mentions db.

(** The rows stored under the key of [m]. *)
Definition stored (m : PlayerMention) (db : Table) : list Row :=
  filter (fun r => same_key (mention r) m) (rows db).

(** [ORDER BY date DESC]: dates compare as text.  The query is answered
    from [idx_player_date], the index on (player_name, date) that
    [init_sentiment_database] creates, read backwards: the rows of a player
    come by date from the newest to the oldest, and rows with equal dates by
    rowid from the largest to the smallest.  [reads_before r y]: the row [r]
    is met no later than the row [y]. *)
Definition reads_before (r y : Row) : bool :=
  match String.compare (date (mention y)) (date (mention r)) with
  | Lt => true
  | Eq => (id y <=? id r)%Z
  | Gt => false
  end.

Fixpoint insert_desc (r : Row) (sorted : list Row) : list Row :=
  match sorted with
  | [] => [r]
  | y :: rest =>
      if reads_before r y
      then r :: sorted
      else y :: insert_desc r rest
  end.

Definition order_by_date_desc (l : list Row) : list Row :=
  fold_right insert_desc [] l.

(** [SELECT ... FROM player_sentiments WHERE player_name = ?
     ORDER BY date DESC LIMIT 100] *)
Definition rows_of_player (name : string) (db : Table) : list Row :=
  filter (fun r => String.eqb (player_name (mention r)) name) (rows db).

Definition select_player (name : string) (db : Table) : list Row :=
  firstn 100 (order_by_date_desc (rows_of_player name db)).

End Store.

(** ** Trend aggregation *)

Module Trend.

Import PyNum.

#[local] Open Scope float_scope.

Record LatestMention : Type := mkLatest
  { l_date : string;
    l_score : float;
    l_label : string;
    l_context : string;
    l_coach : optional_str }.

Record Summary : Type := mkSummary
  { player_name : string;
    mention_count : nat;
    avg_sentiment : float;
    recent_avg : float;
    older_avg : float;
    trend : string;
    trend_magnitude : float;
    latest_mentions : list LatestMention }.

(** The returned dict: the error dict, or the summary. *)
Inductive Result : Type :=
  | NoData (error : string)
  | Found (summary : Summary).

Section Builtins.

(** The built-ins [sum] (over a list of floats) and [round(x, 3)]. *)
Variable sum : list float -> float.
Variable round3 : float -> float.

Definition mean (xs : list float) : float :=
  sum xs / float_of_int (Z.of_nat (List.length xs)).

(** [scores[:min(5, len(scores))]] and [scores[min(5, len(scores)):]] *)
Definition recent_scores (scores : list float) : list float :=
  firstn (Nat.min 5 (List.length scores)) scores.

Definition older_scores (scores : list float) : list float :=
  skipn (Nat.min 5 (List.length scores)) scores.

Definition recent_avg_of (scores : list float) : float :=
  match recent_scores scores with
  | [] => 0
  | recent => mean recent
  end.

Definition older_avg_of (scores : list float) : float :=
  match older_scores scores with
  | [] => recent_avg_of scores
  | older => mean older
  end.

Definition trend_diff_of (scores : list float) : float :=
  recent_avg_of scores - older_avg_of scores.

Definition trend_of (trend_diff : float) : string :=
  if 0.2 <? trend_diff then "improving"%string
  else if trend_diff <? -0.2 then "declining"%string
  else "stable"%string.

Definition latest_of (r : Store.Row) : LatestMention :=
  let m := Store.mention r in
  {| l_date := Store.date m;
     l_score := Store.sentiment_score m;
     l_label := Store.sentiment_label m;
     l_context := PyStr.take 200 (Store.context m);
     l_coach := Store.coach_name m |}.

(** [compute_player_trends(player_name)] on the table [db]; the argument
    [days] of the source is not read by the function. *)
Definition compute_player_trends (db : Store.Table) (player_name : string) : Result :=
  let rows := Store.select_player player_name db in
  match rows with
  | [] => NoData ("No data found for " ++ player_name)
  | _ =>
      let scores := map (fun r => Store.sentiment_score (Store.mention r)) rows in
      let avg_score := mean scores in
      let trend_diff := trend_diff_of scores in
      Found
        {| player_name := player_name;
           mention_count := List.length rows;
           avg_sentiment := round3 avg_score;
           recent_avg := round3 (recent_avg_of scores);
           older_avg := round3 (older_avg_of scores);
           trend := trend_of trend_diff;
           trend_magnitude := round3 (abs trend_diff);
           latest_mentions := map latest_of (firstn 5 rows) |}
  end.

End Builtins.

(** [sum] as a left-to-right accumulation from 0. *)
Definition sum_left (xs : list float) : float := fold_left add xs 0.

End Trend.

(** ** The specification's wording of the scorer *)

Module Spec.

Import PyNum.

#[local] Open Scope float_scope.

(** A phrase occurs in a text when the text is the phrase between two
    (possibly empty) texts. *)
Definition occurs_in (phrase text : string) : Prop :=
  exists before after : string, text = (before ++ phrase ++ after)%string.

(** "clamp to [-1, 1]" *)
Definition clamp (x : float) : float :=
  if x <? -1 then -1 else if 1 <? x then 1 else x.

(** "score = (posCount - negCount) / (posCount + negCount + 0.001)",
    clamped. *)
Definition score (posCount negCount : Z) : float :=
  clamp (float_of_int (posCount - negCount)
         / (float_of_int (posCount + negCount) + 0.001)).

(** "score > 0.2 -> positive; score < -0.2 -> negative; else neutral" *)
Definition label (score : float) : string :=
  if 0.2 <? score then "positive"%string
  else if score <? -0.2 then "negative"%string
  else "neutral"%string.

(** The smaller of two numbers. *)
Definition smaller (a b : float) : float := if a <=? b then a else b.

(** "min(0.9, 0.4 + 0.1 * (posCount + negCount + 0.001))" *)
Definition confidence (posCount negCount : Z) : float :=
  smaller 0.9 (0.4 + 0.1 * (float_of_int (posCount + negCount) + 0.001)).

(** "After construction every alias key maps to the team of the first
    player whose last name produced it", for a table whose entries are
    [before], then [player] of [team], then [after]. *)
Definition first_alias_wins (rosters : list (string * list string)) : Prop :=
  forall index key team player before after,
    Roster.build_player_to_team rosters = Some index ->
    Roster.entries rosters = (before ++ (team, player) :: after)%list ->
    Roster.last_name player = Some key ->
    Forall (fun e => Roster.last_name (snd e) <> Some key) before ->
    Dict.get key index = Some team.

(** "The team of the last such player": the team of the last entry of
    [es] whose lower-cased full name is [key], if there is one. *)
Fixpoint later_full_name (key : string) (es : list (string * string)) : option string :=
  match es with
  | [] => None
  | (team, player) :: rest =>
      match later_full_name key rest with
      | Some t => Some t
      | None => if String.eqb key (PyStr.lower player) then Some team else None
      end
  end.

(** The context of the unit at index [i] of [units], extended as the
    specification words it: the previous unit (if any) in front and the
    next unit (if any) behind, joined with a full stop and a blank. *)
Definition extended (units : list string) (i : nat) : string :=
  ((match i with
    | O => EmptyString
    | S j => PyStr.strip (nth j units EmptyString) ++ ". "
    end)
   ++ PyStr.strip (nth i units EmptyString)
   ++ (if (S i <? List.length units)%nat
       then ". " ++ PyStr.strip (nth (S i) units EmptyString)
       else EmptyString))%string.

(** "A full name on the same team that ends with that last-name token and
    is longer": an entry of the index bound to [team] whose key ends with
    the matched identifier [player_name] and is strictly longer. *)
Definition stands_for (player_name team : string) (entry : string * string) : Prop :=
  snd entry = team
  /\ (exists stem, fst entry = (stem ++ player_name)%string)
  /\ (PyStr.len player_name < PyStr.len (fst entry))%nat.

End Spec.

(** ** Auxiliary definitions of the proofs *)

Module Aux.

Import PyNum Scorer.

#[local] Open Scope float_scope.

(** The numbers of the result as a function of the two match counts. *)
Definition raw_score (p n : nat) : float :=
  float_of_int (Z.of_nat p - Z.of_nat n)
  / (float_of_int (Z.of_nat p + Z.of_nat n) + 0.001).

Definition code_score (p n : nat) : float := py_max (-1) (py_min 1 (raw_score p n)).

Definition code_confidence (p n : nat) : float :=
  py_min 0.9 (0.4 + (float_of_int (Z.of_nat p + Z.of_nat n) + 0.001) * 0.1).

(** Every pair of counts the two phrase lists allow, checked one by one. *)
Definition all_counts (check : nat -> nat -> bool) : bool :=
  forallb (fun p => forallb (check p) (seq 0 (S (List.length NEGATIVE_INDICATORS))))
          (seq 0 (S (List.length POSITIVE_INDICATORS))).

Definition matched (p n : nat) : bool := negb ((p =? 0)%nat && (n =? 0)%nat).

Definition option_eqb (a : option string) (b : string) : bool :=
  match a with Some x => String.eqb x b | None => false end.

End Aux.

(** ** The batch pipeline, with the rule-based scorer *)

Module Pipeline.

(** The fields [analyze_transcript] reads from a transcript file.  The
    keys [transcript], [video_id] and [published_at] are there and hold
    text.  The key [coach_name] may be absent ([None] here); when it is
    there it holds a text or [null], which [json.load] gives as [None]
    ([NoneValue] here): the scraper writes [null] for a video whose coach it
    could not tell. *)
Record TranscriptData : Type := mkTranscriptData
  { transcript : string;
    video_id : string;
    coach_name : option optional_str;
    published_at : string }.

(** [analyze_transcript(transcript_path)] on the parsed file, with the
    default arguments ([use_llm=False], [coach_team=None]). *)
Definition analyze_transcript (data : TranscriptData) : list Store.PlayerMention :=
  let transcript := transcript data in
  let video_id := video_id data in
  let coach_name :=
    (* data.get("coach_name", "Unknown"): the default only for an absent key *)
    match coach_name data with Some value => value | None => Str "Unknown" end in
  let date := PyStr.take 10 (published_at data) in
  let mentions :=
    Locator.extract_player_mentions Roster.PLAYER_TO_TEAM transcript None in
  map (fun mention =>
         let '(score, label, confidence, indicators) :=
           Scorer.analyze_sentiment_rules (Locator.context mention) in
         {| Store.player_name := Locator.player_name mention;
            Store.team := Locator.team mention;
            Store.context := Locator.context mention;
            Store.sentiment_score := score;
            Store.sentiment_label := label;
            Store.confidence := confidence;
            Store.indicators := indicators;
            Store.video_id := video_id;
            Store.coach_name := coach_name;
            Store.date := date |})
      mentions.

End Pipeline.

(** ** Sentiment shifts *)

Module Shifts.

#[local] Open Scope float_scope.

Record Shift : Type := mkShift
  { player_name : string;
    trend : string;
    magnitude : float;
    recent_avg : float;
    older_avg : float;
    mention_count : nat }.

(** [SELECT DISTINCT player_name FROM player_sentiments]: each name once.
    The query is answered by a scan of [idx_player_date], so the names come
    in the order of that index, which is the order of their texts. *)
Fixpoint insert_name (x : string) (sorted : list string) : list string :=
  match sorted with
  | [] => [x]
  | y :: rest =>
      match String.compare x y with
      | Lt => x :: sorted
      | Eq => sorted
      | Gt => y :: insert_name x rest
      end
  end.

Definition distinct (names : list string) : list string :=
  fold_right insert_name [] names.

Definition distinct_players (db : Store.Table) : list string :=
  distinct (map (fun r => Store.player_name (Store.mention r)) (Store.rows db)).

(** [shifts.sort(key=lambda x: x["magnitude"], reverse=True)]: a stable
    sort, largest magnitude first. *)
Fixpoint insert_shift (x : Shift) (sorted : list Shift) : list Shift :=
  match sorted with
  | [] => [x]
  | y :: rest =>
      if magnitude x <? magnitude y
      then y :: insert_shift x rest
      else x :: sorted
  end.

Definition sort_by_magnitude (l : list Shift) : list Shift :=
  fold_right insert_shift [] l.

Section Builtins.

Variable sum : list float -> float.
Variable round3 : float -> float.

(** The body of the loop over the players. *)
Definition shift_of (db : Store.Table) (min_shift : float) (player : string)
  : list Shift :=
  match Trend.compute_player_trends sum round3 db player with
  | Trend.NoData _ => []
  | Trend.Found t =>
      if min_shift <=? Trend.trend_magnitude t
      then [ {| player_name := player;
                trend := Trend.trend t;
                magnitude := Trend.trend_magnitude t;
                recent_avg := Trend.recent_avg t;
                older_avg := Trend.older_avg t;
                mention_count := Trend.mention_count t |} ]
      else []
  end.

(** [find_sentiment_shifts(min_shift)] on the table [db]. *)
Definition find_sentiment_shifts (db : Store.Table) (min_shift : float) : list Shift :=
  sort_by_magnitude (flat_map (shift_of db min_shift) (distinct_players db)).

End Builtins.

End Shifts.

(** ** Notions the further properties are stated with *)

Module Notions.

(** A text without any of the characters [.], [!], [?]. *)
Fixpoint sep_free (s : string) : bool :=
  match s with
  | EmptyString => true
  | String c r => negb (Locator.is_separator c) && sep_free r
  end.

(** The text with those characters taken out. *)
Fixpoint without_separators (s : string) : string :=
  match s with
  | EmptyString => EmptyString
  | String c r =>
      if Locator.is_separator c then without_separators r
      else String c (without_separators r)
  end.

(** The units of a split, put back together. *)
Definition joined (units : list string) : string :=
  fold_right append EmptyString units.

(** The key the locator deduplicates on. *)
Definition mention_key (m : Locator.Mention) : string * string :=
  (Locator.player_name m, PyStr.take 100 (Locator.context m)).

(** The character in front of offset [q] of a text, if any. *)
Definition char_before (text : string) (q : nat) : option ascii :=
  match q with
  | O => None
  | S k => String.get k text
  end.

(** The identity key of the store. *)
Definition store_key (m : Store.PlayerMention) : string * string * string :=
  (Store.video_id m, Store.player_name m, Store.context m).

(** No two rows of a table share a key. *)
Definition unique_keys (db : Store.Table) : Prop :=
  NoDup (map (fun r => store_key (Store.mention r)) (Store.rows db)).

(** List of rows in which every rowid is larger than the ones before it. *)
Fixpoint ids_increase (bound : Z) (rows : list Store.Row) : Prop :=
  match rows with
  | [] => True
  | r :: rest => (bound < Store.id r)%Z /\ ids_increase (Store.id r) rest
  end.

(** Names in the order of their texts, each once. *)
Fixpoint names_ascend (names : list string) : Prop :=
  match names with
  | [] => True
  | x :: rest =>
      Forall (fun y => String.compare x y = Lt) rest /\ names_ascend rest
  end.

(** Dates from newest to oldest. *)
Fixpoint dates_descend (rows : list Store.Row) : Prop :=
  match rows with
  | [] => True
  | r :: rest =>
      Forall (fun y => String.leb (Store.date (Store.mention y))
                                  (Store.date (Store.mention r)) = true) rest
      /\ dates_descend rest
  end.

End Notions.

Module NotionsMore.

(** Offsets, each at least [gap] behind the one before. *)
Fixpoint apart (gap : nat) (l : list nat) : Prop :=
  match l with
  | [] => True
  | a :: rest =>
      match rest with
      | [] => True
      | b :: _ => a + gap <= b
      end /\ apart gap rest
  end.

(** The identifier [name] stands as a whole word at offset [q] of [text]:
    the text goes on with [name] there, and there is a word boundary in front
    of it and behind it. *)
Definition whole_word_at (name text : string) (q : nat) : Prop :=
  q <= PyStr.len text
  /\ (exists after, PyStr.drop q text = (name ++ after)%string)
  /\ Locator.word_boundary (Notions.char_before text q) (String.get q text) = true
  /\ Locator.word_boundary (Notions.char_before text (q + PyStr.len name))
                           (String.get (q + PyStr.len name) text) = true.

End NotionsMore.

Module NotionsRoster.

(** A name without any token: nothing but white space, or nothing at all. *)
Fixpoint blank (s : string) : bool :=
  match s with
  | EmptyString => true
  | String c r => PyStr.is_space c && blank r
  end.

(** A text without white space. *)
Fixpoint space_free (s : string) : bool :=
  match s with
  | EmptyString => true
  | String c r => negb (PyStr.is_space c) && space_free r
  end.

End NotionsRoster.

Module NotionsScorer.

(** A list of phrases without a repeated entry, as a test. *)
Fixpoint distinct_phrases (l : list string) : bool :=
  match l with
  | [] => true
  | x :: r => negb (existsb (String.eqb x) r) && distinct_phrases r
  end.

(** Two lists of phrases without a common entry, as a test. *)
Definition disjoint_phrases (a b : list string) : bool :=
  forallb (fun x => negb (existsb (String.eqb x) b)) a.

(** The numbers of a result by the two match counts, over both branches of
    the scorer. *)
Definition branch_score (p n : nat) : float :=
  if Aux.matched p n then Aux.code_score p n else 0%float.

Definition branch_label (p n : nat) : string :=
  if Aux.matched p n then Spec.label (Aux.code_score p n) else "neutral".

Definition branch_confidence (p n : nat) : float :=
  if Aux.matched p n then Aux.code_confidence p n else 0.3%float.

(** A number that SQLite gives back as it was stored: neither a NaN nor the
    negative zero. *)
Definition kept_by_sqlite (x : float) : bool :=
  match PrimFloat.classify x with
  | FloatClass.NaN | FloatClass.NZero => false
  | _ => true
  end.

End NotionsScorer.

Module Samples.

(** A transcript file, a few records and two small tables for the worked
    examples. *)
Definition tatum_file : Pipeline.TranscriptData :=
  {| Pipeline.transcript := "Jayson Tatum played great tonight. He really stepped up.";
     Pipeline.video_id := "abc123";
     Pipeline.coach_name := Some NoneValue;
     Pipeline.published_at := "2024-11-02T18:30:00Z" |}.

Definition record (video date : string) (score : float) : Store.PlayerMention :=
  {| Store.player_name := "Jayson Tatum";
     Store.team := "Boston Celtics";
     Store.context := "Jayson Tatum played great tonight";
     Store.sentiment_score := score;
     Store.sentiment_label := "positive";
     Store.confidence := 0.5;
     Store.indicators := ["played great"];
     Store.video_id := video;
     Store.coach_name := "Joe Mazzulla";
     Store.date := date |}.

Definition clock (i : nat) : string := "2024-11-07T08:00:00".

Definition one_row : Store.Table :=
  Store.save_sentiment_results clock [record "v1" "2024-11-01" 0.5%float] Store.empty.

Definition six_rows : Store.Table :=
  Store.save_sentiment_results clock
    [ record "v1" "2024-11-01" 0%float;
      record "v2" "2024-11-02" 1%float;
      record "v3" "2024-11-03" 1%float;
      record "v4" "2024-11-04" 1%float;
      record "v5" "2024-11-05" 1%float;
      record "v6" "2024-11-06" 1%float ]
    Store.empty.

Definition tatum_index : Dict.t :=
  [ ("jayson tatum", "Boston Celtics"); ("tatum", "Boston Celtics") ].

End Samples.

(** * Properties *)

(** ** Substring search *)

Section Substrings.

Import PyStr.

Lemma startswith_iff (s p : string) :
  startswith s p = true <-> exists after, s = (p ++ after)%string.
Proof.
  revert s; induction p as [|a p IH]; intros s.
  - split; [intros _; now exists s | now destruct s].
  - destruct s as [|b s]; cbn [startswith append].
    + split; [discriminate | intros [after H]; discriminate].
    + rewrite andb_true_iff, Ascii.eqb_eq, IH. split.
      * intros [-> [after ->]]. now exists after.
      * intros [after H]. injection H as -> ->. split; [reflexivity | now exists after].
Qed.

Lemma contains_iff (needle hay : string) :
  contains needle hay = true <-> Spec.occurs_in needle hay.
Proof.
  unfold Spec.occurs_in. induction hay as [|c hay IH].
  - cbn [contains]. rewrite orb_false_r, startswith_iff. split.
    + intros [after H]. now exists EmptyString, after.
    + intros [[|b before] [after H]]; [now exists after | discriminate].
  - cbn [contains]. rewrite orb_true_iff, startswith_iff, IH. split.
    + intros [[after H] | [before [after H]]].
      * now exists EmptyString, after.
      * exists (String c before), after. simpl. now rewrite H.
    + intros [[|b before] [after H]].
      * left. now exists after.
      * right. injection H as _ H. now exists before, after.
Qed.

End Substrings.

(** ** The scorer *)

Section ScorerFacts.

Import PyStr PyNum Scorer Aux.

#[local] Open Scope float_scope.

Lemma found_In (indicators : list string) (text phrase : string) :
  In phrase (found indicators text)
  <-> In phrase indicators /\ Spec.occurs_in phrase text.
Proof. unfold found. now rewrite filter_In, contains_iff. Qed.

Lemma found_length (indicators : list string) (text : string) :
  (List.length (found indicators text) <= List.length indicators)%nat.
Proof. apply filter_length_le. Qed.

Lemma found_nil (indicators : list string) (text : string) :
  (forall phrase, In phrase indicators -> ~ Spec.occurs_in phrase text) ->
  found indicators text = [].
Proof.
  intros H. destruct (found indicators text) as [|x l] eqn:E; [reflexivity|].
  exfalso. assert (Hx : In x (found indicators text)) by (rewrite E; now left).
  apply found_In in Hx. destruct Hx as [Hin Hocc]. exact (H x Hin Hocc).
Qed.

Lemma calculate_no_match (neutral_found : list string) :
  calculate [] [] neutral_found =
    (0.0, "neutral"%string, 0.3,
     match neutral_found with
     | [] => ["no clear indicators"%string]
     | _ => neutral_found
     end).
Proof. reflexivity. Qed.

Lemma calculate_match (pos neg neutral_found : list string) :
  (1 <= List.length pos + List.length neg)%nat ->
  calculate pos neg neutral_found =
    (code_score (List.length pos) (List.length neg),
     Spec.label (code_score (List.length pos) (List.length neg)),
     code_confidence (List.length pos) (List.length neg),
     (pos ++ neg)%list).
Proof.
  intros H. unfold calculate.
  assert (E : ((Z.of_nat (List.length pos) =? 0)%Z
               && (Z.of_nat (List.length neg) =? 0)%Z) = false).
  { apply andb_false_iff. rewrite !Z.eqb_neq. lia. }
  rewrite E. reflexivity.
Qed.

Lemma all_counts_sound (check : nat -> nat -> bool) :
  all_counts check = true ->
  forall p n,
    (p <= List.length POSITIVE_INDICATORS)%nat ->
    (n <= List.length NEGATIVE_INDICATORS)%nat ->
    check p n = true.
Proof.
  unfold all_counts. intros H p n Hp Hn.
  rewrite forallb_forall in H. specialize (H p).
  rewrite forallb_forall in H. apply H; apply in_seq; lia.
Qed.

Lemma matched_true (p n : nat) : (1 <= p + n)%nat -> matched p n = true.
Proof. unfold matched. destruct p, n; simpl; trivial; lia. Qed.

Lemma code_score_is_spec (p n : nat) :
  (p <= List.length POSITIVE_INDICATORS)%nat ->
  (n <= List.length NEGATIVE_INDICATORS)%nat ->
  code_score p n = Spec.score (Z.of_nat p) (Z.of_nat n).
Proof.
  intros Hp Hn. apply Leibniz.eqb_spec.
  revert p n Hp Hn.
  apply (all_counts_sound
           (fun p n => Leibniz.eqb (code_score p n) (Spec.score (Z.of_nat p) (Z.of_nat n)))).
  vm_compute. reflexivity.
Qed.

Lemma code_confidence_is_spec (p n : nat) :
  (p <= List.length POSITIVE_INDICATORS)%nat ->
  (n <= List.length NEGATIVE_INDICATORS)%nat ->
  code_confidence p n = Spec.confidence (Z.of_nat p) (Z.of_nat n).
Proof.
  intros Hp Hn. apply Leibniz.eqb_spec.
  revert p n Hp Hn.
  apply (all_counts_sound
           (fun p n => Leibniz.eqb (code_confidence p n)
                         (Spec.confidence (Z.of_nat p) (Z.of_nat n)))).
  vm_compute. reflexivity.
Qed.

Lemma code_score_bounds (p n : nat) :
  (p <= List.length POSITIVE_INDICATORS)%nat ->
  (n <= List.length NEGATIVE_INDICATORS)%nat ->
  (-1 <=? code_score p n) = true /\ (code_score p n <=? 1) = true.
Proof.
  intros Hp Hn. apply andb_true_iff.
  revert p n Hp Hn.
  apply (all_counts_sound
           (fun p n => (-1 <=? code_score p n) && (code_score p n <=? 1))).
  vm_compute. reflexivity.
Qed.

Lemma code_confidence_bounds (p n : nat) :
  (p <= List.length POSITIVE_INDICATORS)%nat ->
  (n <= List.length NEGATIVE_INDICATORS)%nat ->
  (1 <= p + n)%nat ->
  (0.5 <=? code_confidence p n) = true /\ (code_confidence p n <=? 0.9) = true.
Proof.
  intros Hp Hn H1. apply matched_true in H1.
  cut (implb (matched p n)
         ((0.5 <=? code_confidence p n) && (code_confidence p n <=? 0.9)) = true).
  { rewrite H1. simpl. apply andb_true_iff. }
  clear H1. revert p n Hp Hn.
  apply (all_counts_sound
           (fun p n => implb (matched p n)
                         ((0.5 <=? code_confidence p n) && (code_confidence p n <=? 0.9)))).
  vm_compute. reflexivity.
Qed.

Lemma code_confidence_floor (p n : nat) :
  (p <= List.length POSITIVE_INDICATORS)%nat ->
  (n <= List.length NEGATIVE_INDICATORS)%nat ->
  (0.3 <=? code_confidence p n) = true /\ (code_confidence p n =? 1.0) = false.
Proof.
  intros Hp Hn.
  cut (((0.3 <=? code_confidence p n) && negb (code_confidence p n =? 1.0)) = true).
  { intros H. apply andb_true_iff in H. destruct H as [H1 H2].
    apply negb_true_iff in H2. now split. }
  revert p n Hp Hn.
  apply (all_counts_sound
           (fun p n => (0.3 <=? code_confidence p n)
                       && negb (code_confidence p n =? 1.0))).
  vm_compute. reflexivity.
Qed.

Lemma code_label_exclusive (p n : nat) :
  (p <= List.length POSITIVE_INDICATORS)%nat ->
  (n <= List.length NEGATIVE_INDICATORS)%nat ->
  (code_score p n <? -0.2) = true -> (0.2 <? code_score p n) = false.
Proof.
  intros Hp Hn H.
  cut (implb (code_score p n <? -0.2) (negb (0.2 <? code_score p n)) = true).
  { rewrite H. simpl. now destruct (0.2 <? code_score p n). }
  clear H. revert p n Hp Hn.
  apply (all_counts_sound
           (fun p n => implb (code_score p n <? -0.2) (negb (0.2 <? code_score p n)))).
  vm_compute. reflexivity.
Qed.

Lemma analyze_unfold (context : string) :
  analyze_sentiment_rules context =
    calculate (found POSITIVE_INDICATORS (lower context))
              (found NEGATIVE_INDICATORS (lower context))
              (found NEUTRAL_INDICATORS (lower context)).
Proof. reflexivity. Qed.

(** The phrases of a list that a text holds none of. *)
Lemma none_occurs (indicators : list string) (text : string) :
  forallb (fun phrase => negb (contains phrase text)) indicators = true ->
  forall phrase, In phrase indicators -> ~ Spec.occurs_in phrase text.
Proof.
  intros H phrase Hin Hocc. rewrite forallb_forall in H.
  apply contains_iff in Hocc. specialize (H phrase Hin).
  rewrite Hocc in H. discriminate.
Qed.

Lemma label_positive_iff (x : float) :
  Spec.label x = "positive"%string <-> (0.2 <? x) = true.
Proof.
  unfold Spec.label. destruct (0.2 <? x); [tauto|].
  destruct (x <? -0.2); split; discriminate.
Qed.

Lemma label_negative_iff (x : float) :
  (0.2 <? x) = false ->
  Spec.label x = "negative"%string <-> (x <? -0.2) = true.
Proof.
  unfold Spec.label. intros ->. destruct (x <? -0.2); [tauto|].
  split; discriminate.
Qed.

(** C4: a context whose lower-cased form holds no positive and no negative
    indicator phrase is scored exactly 0.0, labelled "neutral", with
    confidence 0.3; its indicators are the neutral phrases it holds, in the
    order of the neutral list, or the single entry "no clear indicators"
    when it holds none of them either. *)
Theorem rules_without_indicator (context : string) :
  (forall phrase, In phrase POSITIVE_INDICATORS ->
                  ~ Spec.occurs_in phrase (lower context)) ->
  (forall phrase, In phrase NEGATIVE_INDICATORS ->
                  ~ Spec.occurs_in phrase (lower context)) ->
  let neutral := found NEUTRAL_INDICATORS (lower context) in
  analyze_sentiment_rules context =
    (0.0, "neutral"%string, 0.3,
     match neutral with
     | [] => ["no clear indicators"%string]
     | _ => neutral
     end)
  /\ neutral = filter (fun phrase => contains phrase (lower context)) NEUTRAL_INDICATORS
  /\ (forall phrase,
        In phrase neutral
        <-> In phrase NEUTRAL_INDICATORS /\ Spec.occurs_in phrase (lower context)).
Proof.
  intros Hp Hn neutral. split; [|split].
  - rewrite analyze_unfold, (found_nil _ _ Hp), (found_nil _ _ Hn).
    apply calculate_no_match.
  - reflexivity.
  - intros phrase. apply found_In.
Qed.

Lemma rules_without_indicator_witness :
  analyze_sentiment_rules "Nothing to report, we'll see about the matchup" =
    (0.0, "neutral"%string, 0.3, ["we'll see"%string; "matchup"%string])
  /\ analyze_sentiment_rules "Nothing here" =
    (0.0, "neutral"%string, 0.3, ["no clear indicators"%string]).
Proof.
  split.
  - destruct (rules_without_indicator "Nothing to report, we'll see about the matchup")
      as [W _].
    + apply none_occurs. vm_compute. reflexivity.
    + apply none_occurs. vm_compute. reflexivity.
    + vm_compute in W |- *. exact W.
  - destruct (rules_without_indicator "Nothing here") as [W _].
    + apply none_occurs. vm_compute. reflexivity.
    + apply none_occurs. vm_compute. reflexivity.
    + vm_compute in W |- *. exact W.
Defined.

(** C3: when the lower-cased context holds at least one positive or
    negative indicator phrase, the score is (posCount - negCount) /
    (posCount + negCount + 0.001) clamped to [-1, 1]; the label is
    "positive" exactly when the score is above 0.2, "negative" exactly when
    it is below -0.2, "neutral" otherwise; the confidence is
    min(0.9, 0.4 + 0.1 * (posCount + negCount + 0.001)); the indicators are
    the positive phrases found and then the negative ones, each in the
    order of its list. *)
Theorem rules_with_indicator (context : string) :
  let pos := found POSITIVE_INDICATORS (lower context) in
  let neg := found NEGATIVE_INDICATORS (lower context) in
  let posCount := Z.of_nat (List.length pos) in
  let negCount := Z.of_nat (List.length neg) in
  let result := analyze_sentiment_rules context in
  (1 <= posCount + negCount)%Z ->
  result = (Spec.score posCount negCount,
            Spec.label (Spec.score posCount negCount),
            Spec.confidence posCount negCount,
            (pos ++ neg)%list)
  /\ (label_of result = "positive"%string <-> (0.2 <? score_of result) = true)
  /\ (label_of result = "negative"%string <-> (score_of result <? -0.2) = true)
  /\ pos = filter (fun phrase => contains phrase (lower context)) POSITIVE_INDICATORS
  /\ neg = filter (fun phrase => contains phrase (lower context)) NEGATIVE_INDICATORS
  /\ (forall phrase,
        In phrase pos
        <-> In phrase POSITIVE_INDICATORS /\ Spec.occurs_in phrase (lower context))
  /\ (forall phrase,
        In phrase neg
        <-> In phrase NEGATIVE_INDICATORS /\ Spec.occurs_in phrase (lower context)).
Proof.
  intros pos neg posCount negCount result H.
  assert (Hp := found_length POSITIVE_INDICATORS (lower context)).
  assert (Hn := found_length NEGATIVE_INDICATORS (lower context)).
  assert (E : result = (Spec.score posCount negCount,
                        Spec.label (Spec.score posCount negCount),
                        Spec.confidence posCount negCount,
                        (pos ++ neg)%list)).
  { unfold result, posCount, negCount. rewrite analyze_unfold.
    rewrite calculate_match by (fold pos neg; lia).
    rewrite code_score_is_spec, code_confidence_is_spec by assumption.
    reflexivity. }
  split; [exact E|].
  rewrite E. cbn [label_of score_of].
  assert (Hs : Spec.score posCount negCount
               = code_score (List.length pos) (List.length neg)).
  { symmetry. apply code_score_is_spec; assumption. }
  split; [apply label_positive_iff|].
  split.
  { split.
    - intros Hl.
      destruct (0.2 <? Spec.score posCount negCount) eqn:E2.
      + apply label_positive_iff in E2. rewrite E2 in Hl. discriminate.
      + now apply label_negative_iff.
    - intros Hlt. apply label_negative_iff; [|exact Hlt].
      rewrite Hs in *. now apply code_label_exclusive. }
  split; [reflexivity|]. split; [reflexivity|].
  split; intros phrase; apply found_In.
Qed.

Lemma rules_with_indicator_witness :
  analyze_sentiment_rules "Jayson Tatum played great tonight. He really stepped up"
  = (Spec.score 2 0, "positive"%string, Spec.confidence 2 0,
     ["played great"%string; "stepped up"%string])
  /\ analyze_sentiment_rules "He struggled with turnovers and was not ready."
  = (Spec.score 0 3, "negative"%string, Spec.confidence 0 3,
     ["struggled"%string; "not ready"%string; "turnovers"%string]).
Proof.
  split.
  - destruct (rules_with_indicator
                "Jayson Tatum played great tonight. He really stepped up") as [W _].
    + vm_compute. discriminate.
    + vm_compute in W |- *. exact W.
  - destruct (rules_with_indicator "He struggled with turnovers and was not ready.")
      as [W _].
    + vm_compute. discriminate.
    + vm_compute in W |- *. exact W.
Defined.

(** The result on arbitrary lists of matches, within the bounds the phrase
    lists impose. *)
Lemma calculate_cases (pos neg neutral_found : list string) :
  (pos = [] /\ neg = []
   /\ calculate pos neg neutral_found =
        (0.0, "neutral"%string, 0.3,
         match neutral_found with
         | [] => ["no clear indicators"%string]
         | _ => neutral_found
         end))
  \/ ((1 <= List.length pos + List.length neg)%nat
      /\ calculate pos neg neutral_found =
           (code_score (List.length pos) (List.length neg),
            Spec.label (code_score (List.length pos) (List.length neg)),
            code_confidence (List.length pos) (List.length neg),
            (pos ++ neg)%list)).
Proof.
  destruct pos as [|x pos]; [destruct neg as [|y neg]|].
  - left. repeat split.
  - right. split; [simpl; lia|]. apply calculate_match. simpl; lia.
  - right. split; [simpl; lia|]. apply calculate_match. simpl; lia.
Qed.

(** C8: the score of every context lies in the closed interval [-1, 1]. *)
Theorem rules_score_bounded (context : string) :
  (-1 <=? score_of (analyze_sentiment_rules context)) = true
  /\ (score_of (analyze_sentiment_rules context) <=? 1) = true.
Proof.
  rewrite analyze_unfold.
  assert (Hp := found_length POSITIVE_INDICATORS (lower context)).
  assert (Hn := found_length NEGATIVE_INDICATORS (lower context)).
  destruct (calculate_cases (found POSITIVE_INDICATORS (lower context))
              (found NEGATIVE_INDICATORS (lower context))
              (found NEUTRAL_INDICATORS (lower context)))
    as [(_ & _ & ->) | (_ & ->)]; cbn [score_of].
  - split; reflexivity.
  - now apply code_score_bounds.
Qed.

(** C9: the confidence of every context lies in [0.3, 0.9]: it is exactly
    0.3 when no positive or negative phrase matches, and otherwise it is
    min(0.9, 0.4 + 0.1 * (posCount + negCount + 0.001)), which is at least
    0.5; it is never 1.0. *)
Theorem rules_confidence_bounded (context : string) :
  let pos := found POSITIVE_INDICATORS (lower context) in
  let neg := found NEGATIVE_INDICATORS (lower context) in
  let posCount := Z.of_nat (List.length pos) in
  let negCount := Z.of_nat (List.length neg) in
  let confidence := confidence_of (analyze_sentiment_rules context) in
  (0.3 <=? confidence) = true
  /\ (confidence <=? 0.9) = true
  /\ (confidence =? 1.0) = false
  /\ ((posCount + negCount = 0)%Z -> confidence = 0.3)
  /\ ((1 <= posCount + negCount)%Z ->
      confidence = Spec.confidence posCount negCount
      /\ (0.5 <=? confidence) = true).
Proof.
  intros pos neg posCount negCount confidence.
  assert (Hp : (List.length pos <= List.length POSITIVE_INDICATORS)%nat)
    by apply found_length.
  assert (Hn : (List.length neg <= List.length NEGATIVE_INDICATORS)%nat)
    by apply found_length.
  unfold confidence, posCount, negCount. rewrite analyze_unfold. fold pos neg.
  clearbody pos neg.
  destruct (calculate_cases pos neg (found NEUTRAL_INDICATORS (lower context)))
    as [(Ep & En & ->) | (H1 & ->)]; cbn [confidence_of].
  - subst pos neg. cbn [List.length].
    do 4 (split; [reflexivity|]). intros H. lia.
  - destruct (code_confidence_bounds _ _ Hp Hn H1) as [Hlo Hhi].
    destruct (code_confidence_floor _ _ Hp Hn) as [H03 Hne1].
    do 3 (split; [assumption|]). split.
    + intros H. lia.
    + intros _. split; [now apply code_confidence_is_spec | assumption].
Qed.

(** C10: the indicators of every context are a non-empty list: the matched
    positive and negative phrases when there is one, and otherwise the
    matched neutral phrases or the single entry "no clear indicators". *)
Theorem rules_indicators_nonempty (context : string) :
  let pos := found POSITIVE_INDICATORS (lower context) in
  let neg := found NEGATIVE_INDICATORS (lower context) in
  let neutral := found NEUTRAL_INDICATORS (lower context) in
  let indicators := indicators_of (analyze_sentiment_rules context) in
  indicators <> []
  /\ ((1 <= List.length pos + List.length neg)%nat -> indicators = (pos ++ neg)%list)
  /\ ((List.length pos + List.length neg = 0)%nat ->
      (neutral <> [] /\ indicators = neutral)
      \/ (neutral = [] /\ indicators = ["no clear indicators"%string])).
Proof.
  intros pos neg neutral indicators.
  unfold indicators. rewrite analyze_unfold. fold pos neg neutral.
  destruct (calculate_cases pos neg neutral) as [(Ep & En & ->) | (H1 & ->)];
    cbn [indicators_of].
  - rewrite Ep, En. cbn [List.length]. split; [|split].
    + destruct neutral; discriminate.
    + intros H. simpl in H. lia.
    + intros _. destruct neutral as [|x l]; [right | left]; split;
        try reflexivity; discriminate.
  - split; [|split].
    + intros E. apply (f_equal (@List.length string)) in E.
      rewrite length_app in E. simpl in E. lia.
    + reflexivity.
    + intros H. lia.
Qed.

End ScorerFacts.

(** ** The roster index *)

Section DictFacts.

Lemma get_set_same (k v : string) (d : Dict.t) :
  Dict.get k (Dict.set k v d) = Some v.
Proof.
  induction d as [|[k' v'] d IH]; simpl.
  - now rewrite String.eqb_refl.
  - destruct (String.eqb k k') eqn:E; simpl; rewrite ?String.eqb_refl, ?E; auto.
Qed.

Lemma get_set_other (k k' v : string) (d : Dict.t) :
  k <> k' -> Dict.get k' (Dict.set k v d) = Dict.get k' d.
Proof.
  intros Hne. induction d as [|[k0 v0] d IH]; simpl.
  - apply String.eqb_neq in Hne. now rewrite String.eqb_sym, Hne.
  - destruct (String.eqb k k0) eqn:E; simpl.
    + apply String.eqb_eq in E. subst k0.
      apply String.eqb_neq in Hne. now rewrite String.eqb_sym, Hne.
    + now rewrite IH.
Qed.

Lemma mem_false_iff (k : string) (d : Dict.t) :
  Dict.mem k d = false <-> Dict.get k d = None.
Proof. unfold Dict.mem. destruct (Dict.get k d); split; congruence. Qed.

End DictFacts.

Section RosterFacts.

Import PyStr Roster Aux.

(** What one pass of the inner loop does to the entry of any key. *)
Lemma register_get (team player : string) (d d' : Dict.t) (k : string) :
  register team player d = Some d' ->
  exists alias,
    last_name player = Some alias
    /\ Dict.get k d' =
         if String.eqb k (lower player) then Some team
         else if String.eqb k alias
              then match Dict.get k d with Some v => Some v | None => Some team end
              else Dict.get k d.
Proof.
  unfold register. destruct (last_name player) as [alias|]; [|discriminate].
  intros H. exists alias. split; [reflexivity|].
  destruct (String.eqb k (lower player)) eqn:Efull.
  - apply String.eqb_eq in Efull. subst k.
    destruct (negb (Dict.mem alias (Dict.set (lower player) team d))) eqn:Em;
      injection H as <-.
    + destruct (String.eqb alias (lower player)) eqn:Ea.
      * apply String.eqb_eq in Ea. rewrite Ea. apply get_set_same.
      * apply String.eqb_neq in Ea. rewrite get_set_other by exact Ea.
        apply get_set_same.
    + apply get_set_same.
  - apply String.eqb_neq in Efull.
    assert (Hfull : forall d0, Dict.get k (Dict.set (lower player) team d0) = Dict.get k d0)
      by (intros d0; apply get_set_other; congruence).
    destruct (String.eqb k alias) eqn:Ea.
    + apply String.eqb_eq in Ea. subst alias.
      destruct (negb (Dict.mem k (Dict.set (lower player) team d))) eqn:Em;
        injection H as <-.
      * apply negb_true_iff, mem_false_iff in Em. rewrite Hfull in Em.
        rewrite Em. apply get_set_same.
      * apply negb_false_iff in Em. unfold Dict.mem in Em. rewrite Hfull in *.
        destruct (Dict.get k d); [reflexivity | discriminate].
    + apply String.eqb_neq in Ea.
      destruct (negb (Dict.mem alias (Dict.set (lower player) team d)));
        injection H as <-.
      * rewrite get_set_other by congruence. apply Hfull.
      * apply Hfull.
Qed.

(** A key that no entry of [es] writes keeps what it had. *)
Lemma register_all_untouched (es : list (string * string)) (d d' : Dict.t) (k : string) :
  register_all es d = Some d' ->
  Forall (fun e => lower (snd e) <> k) es ->
  Forall (fun e => last_name (snd e) <> Some k) es ->
  Dict.get k d' = Dict.get k d.
Proof.
  revert d. induction es as [|[team player] es IH]; intros d H Hfull Halias.
  - injection H as <-. reflexivity.
  - simpl in H. destruct (register team player d) as [d1|] eqn:E; [|discriminate].
    inversion Hfull as [|? ? Hf Hfull']; inversion Halias as [|? ? Ha Halias']; subst.
    simpl in Hf, Ha.
    rewrite (IH d1 H Hfull' Halias').
    destruct (register_get _ _ _ _ k E) as (alias & Hl & ->).
    assert (E1 : String.eqb k (lower player) = false)
      by (apply String.eqb_neq; congruence).
    assert (E2 : String.eqb k alias = false)
      by (apply String.eqb_neq; congruence).
    now rewrite E1, E2.
Qed.

(** A key that is bound and is no player's full name is never rebound. *)
Lemma register_all_keeps (es : list (string * string)) (d d' : Dict.t) (k v : string) :
  register_all es d = Some d' ->
  Forall (fun e => lower (snd e) <> k) es ->
  Dict.get k d = Some v ->
  Dict.get k d' = Some v.
Proof.
  revert d. induction es as [|[team player] es IH]; intros d H Hfull Hget.
  - now injection H as <-.
  - simpl in H. destruct (register team player d) as [d1|] eqn:E; [|discriminate].
    inversion Hfull as [|? ? Hf Hfull']; subst. simpl in Hf.
    apply (IH d1 H Hfull').
    destruct (register_get _ _ _ _ k E) as (alias & Hl & ->).
    assert (E1 : String.eqb k (lower player) = false)
      by (apply String.eqb_neq; congruence).
    rewrite E1, Hget. now destruct (String.eqb k alias).
Qed.

Lemma register_all_app (es1 es2 : list (string * string)) (d d' : Dict.t) :
  register_all (es1 ++ es2) d = Some d' ->
  exists d1, register_all es1 d = Some d1 /\ register_all es2 d1 = Some d'.
Proof.
  revert d. induction es1 as [|[team player] es1 IH]; intros d H; simpl in *.
  - now exists d.
  - destruct (register team player d) as [d0|]; [|discriminate]. now apply IH.
Qed.

(** The table is read whenever every name has a token. *)
Lemma register_all_total (es : list (string * string)) (d : Dict.t) :
  Forall (fun e => last_name (snd e) <> None) es ->
  exists d', register_all es d = Some d'.
Proof.
  revert d. induction es as [|[team player] es IH]; intros d H; simpl.
  - now exists d.
  - inversion H as [|? ? Hl H']; subst. simpl in Hl. unfold register.
    destruct (last_name player) as [alias|]; [|congruence].
    destruct (negb _); apply IH; assumption.
Qed.

Lemma Forall_checked {A : Type} (P : A -> Prop) (check : A -> bool) (l : list A) :
  (forall x, check x = true -> P x) ->
  forallb check l = true -> Forall P l.
Proof.
  intros Hc H. apply Forall_forall. intros x Hx.
  rewrite forallb_forall in H. auto.
Qed.

Lemma option_eqb_false (a : option string) (b : string) :
  negb (option_eqb a b) = true -> a <> Some b.
Proof.
  destruct a as [x|]; simpl; [|discriminate].
  intros H E. injection E as ->. now rewrite String.eqb_refl in H.
Qed.

Lemma eqb_false (a b : string) : negb (String.eqb a b) = true -> a <> b.
Proof. intros H. apply String.eqb_neq. now apply negb_true_iff. Qed.

(** C6, as stated, fails: a later player whose whole name is the key takes
    the key over.  "Draymond Green" registers the alias "green" for the
    Warriors, and the one-word name "Green" then rebinds it. *)
Lemma first_alias_wins_fails :
  ~ Spec.first_alias_wins
      [ ("Golden State Warriors", ["Draymond Green"]);
        ("Houston Rockets", ["Green"]) ].
Proof.
  intros H.
  specialize (H [ ("draymond green", "Golden State Warriors");
                  ("green", "Houston Rockets") ]
                "green" "Golden State Warriors" "Draymond Green"
                [] [("Houston Rockets", "Green")]
                eq_refl eq_refl eq_refl (Forall_nil _)).
  vm_compute in H. discriminate.
Qed.

End RosterFacts.

(** ** The mention locator *)

Section StringFacts.

Import PyStr.

Lemma len_append (a b : string) : len (a ++ b) = len a + len b.
Proof. unfold len. induction a as [|c a IH]; simpl; [reflexivity | now rewrite IH]. Qed.

Lemma drop_append (a b : string) : drop (len a) (a ++ b) = b.
Proof. induction a as [|c a IH]; simpl; [now destruct b | exact IH]. Qed.

Lemma take_drop (n : nat) (s : string) : (take n s ++ drop n s)%string = s.
Proof.
  revert s. induction n as [|n IH]; intros [|c s]; simpl; try reflexivity.
  now rewrite IH.
Qed.

Lemma endswith_iff (s p : string) :
  endswith s p = true <-> exists stem, s = (stem ++ p)%string.
Proof.
  unfold endswith. rewrite andb_true_iff, Nat.leb_le, String.eqb_eq. split.
  - intros [_ H]. exists (take (len s - len p) s).
    rewrite <- H at 2. symmetry. apply take_drop.
  - intros [stem ->]. rewrite len_append. split; [lia|].
    replace (len stem + len p - len p) with (len stem) by lia.
    apply drop_append.
Qed.

End StringFacts.

Section LocatorFacts.

Import PyStr Spec.

Variable PLAYER_TO_TEAM : Dict.t.

Lemma stands_for_test (player_name team full t : string) :
  (String.eqb t team && endswith full player_name
   && (len player_name <? len full)%nat) = true
  <-> stands_for player_name team (full, t).
Proof.
  unfold stands_for. simpl.
  rewrite !andb_true_iff, String.eqb_eq, endswith_iff, Nat.ltb_lt. tauto.
Qed.

Lemma full_name_in_first (player_name team : string) (before after : Dict.t)
    (entry : string * string) :
  Forall (fun e => ~ stands_for player_name team e) before ->
  stands_for player_name team entry ->
  Locator.full_name_in (before ++ entry :: after)%list player_name team = fst entry.
Proof.
  intros Hb He. induction before as [|[full t] before IH]; simpl.
  - destruct entry as [full t]. apply stands_for_test in He. now rewrite He.
  - inversion Hb as [|? ? Hn Hb']; subst.
    destruct (String.eqb t team && endswith full player_name
              && (len player_name <? len full)%nat) eqn:E.
    + apply stands_for_test in E. contradiction.
    + now apply IH.
Qed.

Lemma full_name_in_none (player_name team : string) (items : Dict.t) :
  Forall (fun e => ~ stands_for player_name team e) items ->
  Locator.full_name_in items player_name team = player_name.
Proof.
  induction 1 as [|[full t] items Hn _ IH]; simpl; [reflexivity|].
  destruct (String.eqb t team && endswith full player_name
            && (len player_name <? len full)%nat) eqn:E; [|exact IH].
  apply stands_for_test in E. contradiction.
Qed.

(** The first entry of a list that satisfies a decidable property splits
    the list. *)
Lemma first_standing (player_name team : string) (items : Dict.t) :
  Forall (fun e => ~ stands_for player_name team e) items
  \/ exists before entry after,
       items = (before ++ entry :: after)%list
       /\ Forall (fun e => ~ stands_for player_name team e) before
       /\ stands_for player_name team entry.
Proof.
  induction items as [|[full t] items IH]; [left; constructor|].
  destruct (String.eqb t team && endswith full player_name
            && (len player_name <? len full)%nat) eqn:E.
  - right. exists [], (full, t), items.
    split; [reflexivity|]. split; [constructor|]. now apply stands_for_test.
  - assert (Hn : ~ stands_for player_name team (full, t)).
    { intros H. apply stands_for_test in H. congruence. }
    destruct IH as [IH | (before & entry & after & -> & Hb & He)].
    + left. now constructor.
    + right. exists ((full, t) :: before), entry, after.
      split; [reflexivity|]. split; [now constructor | exact He].
Qed.

Lemma unique_from_In (seen : list (string * string)) (mentions : list Locator.Mention)
    (m : Locator.Mention) :
  In m (Locator.unique_from seen mentions) -> In m mentions.
Proof.
  revert seen. induction mentions as [|x mentions IH]; intros seen; simpl; [tauto|].
  destruct (existsb _ seen).
  - intros H. right. now apply (IH seen).
  - intros [H | H]; [now left | right; now apply (IH _ H)].
Qed.

(** C5: the canonical name of a matched identifier is the first key of the
    index, in iteration order, that is bound to the same team, ends with the
    identifier and is strictly longer, title-cased; when the index has no
    such key it is the identifier itself, title-cased.  In particular, when
    exactly one key qualifies, that key is the canonical name.  Every
    mention the locator returns carries the name so resolved for some
    identifier of the index and that identifier's team. *)
Theorem canonical_name_resolution (player_name team : string) :
  let canonical := title (Locator.full_name PLAYER_TO_TEAM player_name team) in
  (forall before entry after,
      PLAYER_TO_TEAM = (before ++ entry :: after)%list ->
      Forall (fun e => ~ stands_for player_name team e) before ->
      stands_for player_name team entry ->
      canonical = title (fst entry))
  /\ (Forall (fun e => ~ stands_for player_name team e) PLAYER_TO_TEAM ->
      canonical = title player_name)
  /\ (forall full,
        In (full, team) PLAYER_TO_TEAM ->
        stands_for player_name team (full, team) ->
        (forall e, In e PLAYER_TO_TEAM -> stands_for player_name team e -> fst e = full) ->
        canonical = title full)
  /\ (forall transcript coach_team m,
        In m (Locator.extract_player_mentions PLAYER_TO_TEAM transcript coach_team) ->
        exists identifier,
          In (identifier, Locator.team m) PLAYER_TO_TEAM
          /\ Locator.player_name m
             = title (Locator.full_name PLAYER_TO_TEAM identifier (Locator.team m))).
Proof.
  intros canonical. unfold canonical, Locator.full_name.
  split; [|split; [|split]].
  - intros before entry after -> Hb He. f_equal. now apply full_name_in_first.
  - intros Hn. f_equal. now apply full_name_in_none.
  - intros full Hin Hs Huniq. f_equal.
    destruct (first_standing player_name team PLAYER_TO_TEAM)
      as [Hn | (before & entry & after & E & Hb & He)].
    + rewrite Forall_forall in Hn. exfalso. exact (Hn _ Hin Hs).
    + rewrite E. rewrite (full_name_in_first _ _ _ _ _ Hb He).
      apply Huniq; [|exact He]. rewrite E. apply in_or_app. right. now left.
  - intros transcript coach_team m Hm.
    unfold Locator.extract_player_mentions in Hm.
    apply unique_from_In in Hm. unfold Locator.all_mentions in Hm.
    apply in_flat_map in Hm. destruct Hm as ([identifier t] & Hin & Hm).
    apply in_map_iff in Hm. destruct Hm as (start_pos & <- & _).
    exists identifier. simpl. split; [exact Hin | reflexivity].
Qed.

End LocatorFacts.

(** The alias "kerr" of a table that lists "Steve Kerr" resolves to
    "Steve Kerr". *)
Lemma canonical_name_resolution_witness :
  Roster.build_player_to_team
    [("Golden State Warriors", ["Stephen Curry"; "Steve Kerr"])]
  = Some [ ("stephen curry", "Golden State Warriors");
           ("curry", "Golden State Warriors");
           ("steve kerr", "Golden State Warriors");
           ("kerr", "Golden State Warriors") ]
  /\ PyStr.title
       (Locator.full_name
          [ ("stephen curry", "Golden State Warriors");
            ("curry", "Golden State Warriors");
            ("steve kerr", "Golden State Warriors");
            ("kerr", "Golden State Warriors") ]
          "kerr" "Golden State Warriors")
     = "Steve Kerr".
Proof.
  split; [vm_compute; reflexivity|].
  apply (proj1 (proj2 (proj2
           (canonical_name_resolution
              [ ("stephen curry", "Golden State Warriors");
                ("curry", "Golden State Warriors");
                ("steve kerr", "Golden State Warriors");
                ("kerr", "Golden State Warriors") ]
              "kerr" "Golden State Warriors"))) "steve kerr").
  - simpl. tauto.
  - apply stands_for_test. vm_compute. reflexivity.
  - intros e Hin Hs. simpl in Hin.
    destruct Hin as [<- | [<- | [<- | [<- | []]]]];
      try reflexivity;
      apply stands_for_test in Hs; vm_compute in Hs; discriminate.
Defined.

(** C2, at a transcript of three sentences with the player named in the
    second: the sentence found is stripped before it is looked up in the list
    of units, the lookup fails on the leading blank, and the context becomes
    the sentence followed by the first unit of the transcript.  The
    previous unit is not put in front and the next unit is not appended, as
    the wording of the specification would have it. *)
Theorem short_context_takes_first_unit :
  Locator.re_split "Hello there. Tatum played great. Bye now"
  = ["Hello there"; " Tatum played great"; " Bye now"]
  /\ Locator.extract_player_mentions Roster.PLAYER_TO_TEAM
       "Hello there. Tatum played great. Bye now" None
     = [ {| Locator.player_name := "Jayson Tatum";
            Locator.team := "Boston Celtics";
            Locator.context := "Tatum played great. Hello there";
            Locator.position := 13 |} ]
  /\ PyStr.take 500
       (Spec.extended ["Hello there"; " Tatum played great"; " Bye now"] 1)
     = "Hello there. Tatum played great. Bye now".
Proof. repeat split; vm_compute; reflexivity. Qed.

(** The general shape of that behaviour: a short context that is not itself
    one of the units is followed by the first unit. *)
Lemma expand_unlisted (sentences : list string) (context : string) :
  PyStr.len context < 100 ->
  sentences <> [] ->
  Locator.index_from 0 context sentences = (-1)%Z ->
  Locator.expand sentences context
  = (context ++ ". " ++ PyStr.strip (hd EmptyString sentences))%string.
Proof.
  intros Hlen Hne Hidx. unfold Locator.expand.
  apply Nat.ltb_lt in Hlen. rewrite Hlen, Hidx.
  destruct sentences as [|s0 rest]; [congruence|].
  cbn [Z.ltb Z.compare hd].
  assert (E : (-1 <? Z.of_nat (List.length (s0 :: rest)) - 1)%Z = true).
  { apply Z.ltb_lt. cbn [List.length]. lia. }
  rewrite E. reflexivity.
Qed.

(** ** The sentiment store *)

Section StoreFacts.

Import Store.

(** After [INSERT OR REPLACE] the only row under the key of the new record
    is the new record: the last write wins. *)
Lemma insert_or_replace_last_wins (m : PlayerMention) (now : string) (db : Table) :
  stored m (insert_or_replace m now db)
  = [ {| id := (last_id db + 1)%Z; mention := m; analyzed_at := now |} ].
Proof.
  unfold stored, insert_or_replace. cbn [rows].
  rewrite filter_app. cbn [filter mention].
  assert (Hself : same_key m m = true).
  { unfold same_key. now rewrite !String.eqb_refl. }
  rewrite Hself.
  assert (Hnone : forall l,
             filter (fun r => same_key (mention r) m)
                    (filter (fun r => negb (same_key (mention r) m)) l) = []).
  { induction l as [|r l IH]; [reflexivity|]. cbn [filter].
    destruct (same_key (mention r) m) eqn:E; cbn [negb filter]; [exact IH|].
    now rewrite E. }
  now rewrite Hnone.
Qed.

End StoreFacts.

(** C1, at a record saved twice: the second save replaces the stored row.
    The table ends with one row under the key, so there is no duplicate and
    no error, but the row carries the score, label, confidence, indicators
    and [analyzed_at] of the second write (and a new rowid), not those of
    the first. *)
Theorem second_save_replaces_first :
  let first :=
    {| Store.player_name := "Jayson Tatum";
       Store.team := "Boston Celtics";
       Store.context := "Jayson Tatum played great tonight. He really stepped up";
       Store.sentiment_score := 0.5;
       Store.sentiment_label := "positive";
       Store.confidence := 0.75;
       Store.indicators := ["played great"; "stepped up"];
       Store.video_id := "abc123";
       Store.coach_name := "Joe Mazzulla";
       Store.date := "2024-11-02" |} in
  let second :=
    {| Store.player_name := "Jayson Tatum";
       Store.team := "Boston Celtics";
       Store.context := "Jayson Tatum played great tonight. He really stepped up";
       Store.sentiment_score := -0.25;
       Store.sentiment_label := "negative";
       Store.confidence := 0.5;
       Store.indicators := ["tonight"];
       Store.video_id := "abc123";
       Store.coach_name := "Joe Mazzulla";
       Store.date := "2024-11-02" |} in
  let after_first :=
    Store.save_sentiment_results (fun _ => "2024-11-03T10:00:00") [first] Store.empty in
  let after_second :=
    Store.save_sentiment_results (fun _ => "2024-11-04T09:30:00") [second] after_first in
  let after_same :=
    Store.save_sentiment_results (fun _ => "2024-11-04T09:30:00") [first] after_first in
  Store.rows after_first
  = [ {| Store.id := 1; Store.mention := first;
         Store.analyzed_at := "2024-11-03T10:00:00" |} ]
  /\ Store.rows after_second
     = [ {| Store.id := 2; Store.mention := second;
            Store.analyzed_at := "2024-11-04T09:30:00" |} ]
  /\ Store.rows after_same
     = [ {| Store.id := 2; Store.mention := first;
            Store.analyzed_at := "2024-11-04T09:30:00" |} ].
Proof. repeat split. Qed.

(** ** Trend aggregation *)

Section FloatFacts.

#[local] Open Scope float_scope.

(** A float minus itself is +0, or not a number when the float is not
    finite. *)
Lemma sub_self_cases (x : float) :
  Prim2SF (x - x) = S754_zero false \/ Prim2SF (x - x) = S754_nan.
Proof.
  rewrite sub_spec. unfold SF64sub.
  destruct (Prim2SF x) as [s | s | | s m e].
  - left. now destruct s.
  - right. now destruct s.
  - right. reflexivity.
  - left. unfold SFsub. rewrite Z.sub_diag. reflexivity.
Qed.

Lemma finite_cases (x : float) :
  is_finite x = true ->
  (exists s, Prim2SF x = S754_zero s) \/ (exists s m e, Prim2SF x = S754_finite s m e).
Proof.
  unfold is_finite. intros H. apply negb_true_iff, orb_false_iff in H.
  destruct H as [Hnan Hinf]. unfold Prim2SF. rewrite Hnan, Hinf.
  destruct (is_zero x); [left; eauto|].
  destruct (Z.frexp x) as [r exp].
  destruct (shr_fexp prec emax _ _ _) as [shr e'].
  destruct (shr_m shr); [left | right | left]; eauto.
Qed.

Lemma sub_self_finite (x : float) : is_finite x = true -> x - x = 0.
Proof.
  intros H. rewrite <- (SF2Prim_Prim2SF (x - x)), sub_spec. unfold SF64sub.
  destruct (finite_cases x H) as [[s ->] | (s & m & e & ->)].
  - now destruct s.
  - unfold SFsub. rewrite Z.sub_diag. reflexivity.
Qed.

Lemma trend_of_sub_self (x : float) : Trend.trend_of (x - x) = "stable".
Proof.
  unfold Trend.trend_of. rewrite !ltb_spec.
  destruct (sub_self_cases x) as [-> | ->]; vm_compute; reflexivity.
Qed.

End FloatFacts.

Section StoreQueries.

Import Store.

Lemma insert_desc_length (r : Row) (l : list Row) :
  List.length (insert_desc r l) = S (List.length l).
Proof.
  induction l as [|y l IH]; simpl; [reflexivity|].
  destruct (reads_before _ _); simpl; [reflexivity | now rewrite IH].
Qed.

Lemma order_by_date_desc_length (l : list Row) :
  List.length (order_by_date_desc l) = List.length l.
Proof.
  induction l as [|r l IH]; simpl; [reflexivity|].
  now rewrite insert_desc_length, IH.
Qed.

Lemma select_player_length (name : string) (db : Table) :
  List.length (select_player name db)
  = Nat.min 100 (List.length (rows_of_player name db)).
Proof.
  unfold select_player. now rewrite length_firstn, order_by_date_desc_length.
Qed.

End StoreQueries.

Section TrendFacts.

Import Trend.

#[local] Open Scope float_scope.

Variable sum : list float -> float.
Variable round3 : float -> float.

Lemma compute_player_trends_found (db : Store.Table) (name : string) :
  Store.select_player name db <> [] ->
  exists summary,
    compute_player_trends sum round3 db name = Found summary
    /\ mention_count summary = List.length (Store.select_player name db)
    /\ trend summary
       = trend_of (trend_diff_of sum
                     (map (fun r => Store.sentiment_score (Store.mention r))
                          (Store.select_player name db))).
Proof.
  intros Hne. unfold compute_player_trends.
  destruct (Store.select_player name db) as [|r rows]; [congruence|].
  eexists. split; [reflexivity|]. split; reflexivity.
Qed.

(** C7: for a player with [n >= 1] stored records, of which the 100 most
    recent are fetched, the summary is computed from "recent" = the first
    min(5, n) fetched scores and "older" = the rest.  When [n <= 5] the
    older scores are empty, the older average is the recent average, the
    reported trend is "stable", and the difference of the two averages is 0
    (the recent average being a finite number). *)
Theorem few_records_trend_is_stable (db : Store.Table) (name : string) :
  let n := List.length (Store.rows_of_player name db) in
  let rows := Store.select_player name db in
  let scores := map (fun r => Store.sentiment_score (Store.mention r)) rows in
  (1 <= n)%nat ->
  (exists summary,
      compute_player_trends sum round3 db name = Found summary
      /\ mention_count summary = Nat.min 100 n
      /\ trend summary = trend_of (trend_diff_of sum scores))
  /\ recent_scores scores = firstn (Nat.min 5 n) scores
  /\ older_scores scores = skipn (Nat.min 5 n) scores
  /\ ((n <= 5)%nat ->
      recent_scores scores = scores
      /\ older_scores scores = []
      /\ older_avg_of sum scores = recent_avg_of sum scores
      /\ trend_of (trend_diff_of sum scores) = "stable"%string
      /\ (is_finite (recent_avg_of sum scores) = true ->
          trend_diff_of sum scores = 0)).
Proof.
  intros n rows scores Hn.
  assert (Hlen : List.length scores = Nat.min 100 n).
  { unfold scores, rows. rewrite length_map. apply select_player_length. }
  assert (Hrows : List.length rows = Nat.min 100 n) by apply select_player_length.
  clearbody n.
  assert (Hmin : Nat.min 5 (List.length scores) = Nat.min 5 n)
    by (rewrite Hlen; lia).
  split; [|split; [|split]].
  - destruct (compute_player_trends_found db name) as (summary & Hs & Hc & Ht).
    + fold rows. intros E. rewrite E in Hrows. cbn [List.length] in Hrows. lia.
    + exists summary. fold rows in Hc, Ht. fold scores in Ht.
      split; [exact Hs|]. split; [congruence | exact Ht].
  - unfold recent_scores. now rewrite Hmin.
  - unfold older_scores. now rewrite Hmin.
  - intros Hfew.
    assert (Hold : older_scores scores = []).
    { unfold older_scores. apply skipn_all2. lia. }
    assert (Havg : older_avg_of sum scores = recent_avg_of sum scores).
    { unfold older_avg_of. now rewrite Hold. }
    split; [|split; [exact Hold | split; [exact Havg | split]]].
    + unfold recent_scores. apply firstn_all2. lia.
    + unfold trend_diff_of. rewrite Havg. apply trend_of_sub_self.
    + intros Hfin. unfold trend_diff_of. rewrite Havg. now apply sub_self_finite.
Qed.

End TrendFacts.

(** Three records of one player, on three days: all of them are "recent",
    none is "older", and the trend is "stable". *)
Lemma few_records_trend_is_stable_witness :
  let record := fun video date score =>
    {| Store.player_name := "Jayson Tatum";
       Store.team := "Boston Celtics";
       Store.context := "Jayson Tatum played great tonight";
       Store.sentiment_score := score;
       Store.sentiment_label := "positive";
       Store.confidence := 0.5;
       Store.indicators := ["played great"];
       Store.video_id := video;
       Store.coach_name := "Joe Mazzulla";
       Store.date := date |} in
  let db :=
    Store.save_sentiment_results (fun _ => "2024-11-05T08:00:00")
      [ record "v1" "2024-11-01" 0.5%float;
        record "v2" "2024-11-03" 1.0%float;
        record "v3" "2024-11-02" (-0.25)%float ]
      Store.empty in
  let scores :=
    map (fun r => Store.sentiment_score (Store.mention r))
        (Store.select_player "Jayson Tatum" db) in
  scores = [1.0; -0.25; 0.5]%float
  /\ Trend.older_scores scores = []
  /\ Trend.trend_of (Trend.trend_diff_of Trend.sum_left scores) = "stable"
  /\ Trend.trend_diff_of Trend.sum_left scores = 0%float.
Proof.
  intros record db scores.
  assert (H := few_records_trend_is_stable Trend.sum_left (fun x => x) db "Jayson Tatum").
  cbv zeta in H.
  destruct H as (_ & _ & _ & H); [vm_compute; lia|].
  destruct H as (_ & Hold & _ & Hstable & Hzero); [vm_compute; lia|].
  split; [vm_compute; reflexivity|].
  split; [exact Hold|]. split; [exact Hstable|].
  apply Hzero. vm_compute. reflexivity.
Defined.

(** * Further properties *)

(** ** Strings *)

Section MoreStringFacts.

Import PyStr.

Lemma len_take (n : nat) (s : string) : len (take n s) <= n.
Proof.
  unfold len. revert s. induction n as [|n IH]; intros [|c s]; simpl; try lia.
  specialize (IH s). lia.
Qed.

Lemma len_drop (n : nat) (s : string) : len (drop n s) = len s - n.
Proof.
  unfold len. revert s. induction n as [|n IH]; intros [|c s]; simpl; try lia.
  apply IH.
Qed.

Lemma get_drop (n i : nat) (s : string) : String.get i (drop n s) = String.get (n + i) s.
Proof.
  revert s. induction n as [|n IH]; intros [|c s]; simpl; try reflexivity.
  apply IH.
Qed.

Lemma get_append_left (a b : string) (i : nat) :
  i < len a -> String.get i (a ++ b) = String.get i a.
Proof.
  unfold len. revert i. induction a as [|c a IH]; intros i H; simpl in *; [lia|].
  destruct i; [reflexivity|]. apply IH. lia.
Qed.

Lemma lower_char_idem (c : ascii) : lower_char (lower_char c) = lower_char c.
Proof. destruct c as [[] [] [] [] [] [] [] []]; reflexivity. Qed.

Lemma lower_idem (s : string) : lower (lower s) = lower s.
Proof.
  induction s as [|c s IH]; simpl; [reflexivity|].
  now rewrite lower_char_idem, IH.
Qed.

Lemma len_lower (s : string) : len (lower s) = len s.
Proof. unfold len. induction s as [|c s IH]; simpl; [reflexivity | now rewrite IH]. Qed.

End MoreStringFacts.

(** ** Splitting into sentence units *)

Section SplitFacts.

Import PyStr Locator Notions.

Lemma sep_free_of_list (l : list ascii) :
  sep_free (string_of_list_ascii l) = forallb (fun c => negb (is_separator c)) l.
Proof. induction l as [|c l IH]; simpl; [reflexivity | now rewrite IH]. Qed.

Lemma string_of_list_app (a b : list ascii) :
  string_of_list_ascii (a ++ b) = (string_of_list_ascii a ++ string_of_list_ascii b)%string.
Proof. induction a as [|c a IH]; simpl; [reflexivity | now rewrite IH]. Qed.

Lemma append_assoc (a b c : string) : ((a ++ b) ++ c = a ++ (b ++ c))%string.
Proof. induction a as [|x a IH]; simpl; [reflexivity | now rewrite IH]. Qed.

Lemma append_empty_r (a : string) : (a ++ EmptyString)%string = a.
Proof. induction a as [|x a IH]; simpl; [reflexivity | now rewrite IH]. Qed.

Lemma forallb_rev {A : Type} (f : A -> bool) (l : list A) :
  forallb f (rev l) = forallb f l.
Proof.
  induction l as [|x l IH]; simpl; [reflexivity|].
  rewrite forallb_app, IH. simpl. rewrite andb_true_r. apply andb_comm.
Qed.

Lemma re_split_from_free (unit : list ascii) (in_run : bool) (s : string) :
  forallb (fun c => negb (is_separator c)) unit = true ->
  Forall (fun u => sep_free u = true) (re_split_from unit in_run s).
Proof.
  revert unit in_run. induction s as [|c s IH]; intros unit in_run Hu; simpl.
  - constructor; [|constructor].
    rewrite sep_free_of_list, forallb_rev. exact Hu.
  - destruct (is_separator c) eqn:E.
    + destruct in_run.
      * now apply IH.
      * constructor; [|now apply IH].
        rewrite sep_free_of_list, forallb_rev. exact Hu.
    + apply IH. simpl. now rewrite E.
Qed.

Lemma re_split_from_joined (unit : list ascii) (in_run : bool) (s : string) :
  (in_run = true -> unit = []) ->
  joined (re_split_from unit in_run s)
  = (string_of_list_ascii (rev unit) ++ without_separators s)%string.
Proof.
  revert unit in_run. induction s as [|c s IH]; intros unit in_run Hrun; simpl.
  - unfold joined. simpl. reflexivity.
  - destruct (is_separator c) eqn:E.
    + destruct in_run.
      * rewrite (Hrun eq_refl). rewrite IH by reflexivity. reflexivity.
      * unfold joined. simpl. fold (joined (re_split_from [] true s)).
        rewrite IH by reflexivity. reflexivity.
    + rewrite IH by discriminate. simpl.
      rewrite string_of_list_app, append_assoc. reflexivity.
Qed.

Lemma re_split_from_nonempty (unit : list ascii) (in_run : bool) (s : string) :
  re_split_from unit in_run s <> [].
Proof.
  revert unit in_run. induction s as [|c s IH]; intros unit in_run; simpl.
  - discriminate.
  - destruct (is_separator c); [destruct in_run|]; try apply IH. discriminate.
Qed.

(** X1: the sentence units of a transcript hold none of the characters
    [.], [!], [?]; put back together they are the transcript with exactly
    those characters taken out; and there is always at least one unit. *)
Theorem re_split_units (transcript : string) :
  Forall (fun u => sep_free u = true) (re_split transcript)
  /\ joined (re_split transcript) = without_separators transcript
  /\ re_split transcript <> [].
Proof.
  unfold re_split. split; [|split].
  - now apply re_split_from_free.
  - now rewrite re_split_from_joined by discriminate.
  - apply re_split_from_nonempty.
Qed.

End SplitFacts.

(** ** Whole-word search *)

Section FinditerFacts.

Import PyStr Locator Notions NotionsMore.

Lemma matches_here_iff (name text : string) (q : nat) :
  matches_here name (char_before text q) (drop q text) = true
  <-> (exists after, drop q text = (name ++ after)%string)
      /\ word_boundary (char_before text q) (String.get q text) = true
      /\ word_boundary (char_before text (q + len name))
                       (String.get (q + len name) text) = true.
Proof.
  unfold matches_here. rewrite !andb_true_iff, startswith_iff, !get_drop.
  rewrite Nat.add_0_r.
  assert (E : match len name with
              | O => char_before text q
              | S k => String.get k (drop q text)
              end = char_before text (q + len name)).
  { destruct (len name) as [|k].
    - now rewrite Nat.add_0_r.
    - rewrite get_drop, Nat.add_succ_r. reflexivity. }
  rewrite E. tauto.
Qed.

Lemma finditer_from_sound (name : string) (s : string) :
  forall prev pos skip q,
    In q (finditer_from name prev pos skip s) ->
    exists k,
      q = pos + k /\ skip <= k /\ k <= len s
      /\ matches_here name (match k with O => prev | S j => String.get j s end)
                      (drop k s) = true.
Proof.
  unfold len. induction s as [|c r IH]; intros prev pos skip q Hq.
  - simpl in Hq. destruct skip; [|contradiction].
    destruct (matches_here name prev EmptyString) eqn:E; [|contradiction].
    destruct Hq as [<- | []]. exists 0. repeat split; try lia; auto.
  - cbn [finditer_from] in Hq. destruct skip as [|j].
    + destruct (matches_here name prev (String c r)) eqn:E.
      * destruct Hq as [<- | Hq].
        { exists 0. repeat split; simpl; try lia. exact E. }
        apply IH in Hq. destruct Hq as (k & -> & _ & Hk & Hm).
        exists (S k). repeat split; simpl; try lia.
        now destruct k.
      * apply IH in Hq. destruct Hq as (k & -> & _ & Hk & Hm).
        exists (S k). repeat split; simpl; try lia.
        now destruct k.
    + apply IH in Hq. destruct Hq as (k & -> & Hj & Hk & Hm).
      exists (S k). repeat split; simpl; try lia.
      now destruct k.
Qed.

Lemma finditer_from_complete (name : string) (s : string) :
  forall prev pos skip k,
    skip <= k -> k <= len s ->
    matches_here name (match k with O => prev | S j => String.get j s end)
                 (drop k s) = true ->
    finditer_from name prev pos skip s <> [].
Proof.
  unfold len. induction s as [|c r IH]; intros prev pos skip k Hs Hk Hm.
  - simpl in Hk. assert (k = 0) by lia. subst k. assert (skip = 0) by lia. subst skip.
    simpl in *. rewrite Hm. discriminate.
  - cbn [finditer_from]. destruct skip as [|j].
    + destruct (matches_here name prev (String c r)) eqn:E; [discriminate|].
      destruct k as [|k]; [simpl in Hm; congruence|].
      apply (IH (Some c) (S pos) 0 k); [lia | simpl in Hk; lia |].
      simpl in Hm. now destruct k.
    + destruct k as [|k]; [lia|].
      apply (IH (Some c) (S pos) j k); [lia | simpl in Hk; lia |].
      simpl in Hm. now destruct k.
Qed.

Lemma finditer_from_apart (name : string) (s : string) :
  forall prev pos skip,
    apart (Nat.max 1 (len name)) (finditer_from name prev pos skip s).
Proof.
  induction s as [|c r IH]; intros prev pos skip.
  - simpl. destruct skip; [|exact I]. destruct (matches_here _ _ _); simpl; auto.
  - cbn [finditer_from]. destruct skip as [|j]; [|apply IH].
    destruct (matches_here name prev (String c r)); [|apply IH].
    cbn [apart]. split; [|apply IH].
    destruct (finditer_from name (Some c) (S pos) (len name - 1) r) as [|b rest] eqn:E;
      [exact I|].
    assert (Hb : In b (finditer_from name (Some c) (S pos) (len name - 1) r))
      by (rewrite E; now left).
    apply finditer_from_sound in Hb. destruct Hb as (k & -> & Hk & _). lia.
Qed.

Lemma finditer_whole_word (name text : string) (q : nat) :
  In q (finditer name text) -> whole_word_at name text q.
Proof.
  intros H. apply finditer_from_sound in H.
  destruct H as (k & -> & _ & Hk & Hm). simpl.
  unfold whole_word_at. split; [exact Hk|].
  now apply matches_here_iff.
Qed.

Lemma whole_word_found (name text : string) (q : nat) :
  whole_word_at name text q -> finditer name text <> [].
Proof.
  intros (Hq & Hrest). apply (finditer_from_complete name text None 0 0 q); [lia | exact Hq |].
  now apply matches_here_iff.
Qed.

Lemma whole_word_occurs (name text : string) (q : nat) :
  whole_word_at name text q -> Spec.occurs_in name text.
Proof.
  intros (_ & (after & H) & _). exists (take q text), after.
  rewrite <- H. symmetry. apply take_drop.
Qed.

(** X2: the matches of one identifier in a text are listed from left to
    right and never overlap: each starts at least the length of the
    identifier (and at least one character) behind the one before. *)
Theorem finditer_matches_apart (name text : string) :
  apart (Nat.max 1 (len name)) (finditer name text).
Proof. apply finditer_from_apart. Qed.

End FinditerFacts.

(** ** The mentions of a transcript *)

Section MentionFacts.

Import PyStr Locator Notions NotionsMore.

Variable PLAYER_TO_TEAM : Dict.t.

Lemma all_mentions_In (transcript : string) (m : Mention) :
  In m (all_mentions PLAYER_TO_TEAM transcript)
  <-> exists identifier team start_pos,
        In (identifier, team) PLAYER_TO_TEAM
        /\ In start_pos (finditer identifier (lower transcript))
        /\ m = mention_at PLAYER_TO_TEAM (re_split transcript) identifier team start_pos.
Proof.
  unfold all_mentions. rewrite in_flat_map. split.
  - intros ([identifier t] & Hin & Hm). apply in_map_iff in Hm.
    destruct Hm as (start_pos & <- & Hpos). now exists identifier, t, start_pos.
  - intros (identifier & t & start_pos & Hin & Hpos & ->).
    exists (identifier, t). split; [exact Hin|]. apply in_map_iff. now exists start_pos.
Qed.

Lemma key_eqb_iff (a b : string * string) : key_eqb a b = true <-> a = b.
Proof.
  unfold key_eqb. destruct a as [a1 a2], b as [b1 b2]. simpl.
  rewrite andb_true_iff, !String.eqb_eq. split; [intros [-> ->]; reflexivity|].
  intros E. injection E as -> ->. now split.
Qed.

Lemma seen_iff (key : string * string) (seen : list (string * string)) :
  existsb (key_eqb key) seen = true <-> In key seen.
Proof.
  rewrite existsb_exists. split.
  - intros (x & Hin & E). apply key_eqb_iff in E. now subst.
  - intros H. exists key. split; [exact H | now apply key_eqb_iff].
Qed.

Lemma unique_from_keys (mentions : list Mention) :
  forall seen,
    NoDup (map mention_key (unique_from seen mentions))
    /\ forall m, In m (unique_from seen mentions) -> ~ In (mention_key m) seen.
Proof.
  induction mentions as [|x rest IH]; intros seen; cbn [unique_from].
  - split; [constructor | simpl; tauto].
  - change (player_name x, take 100 (context x)) with (mention_key x).
    destruct (existsb (key_eqb (mention_key x)) seen) eqn:E; [apply IH|].
    destruct (IH (mention_key x :: seen)) as [Hnd Hout].
    assert (Hx : ~ In (mention_key x) seen).
    { intros H. apply seen_iff in H. congruence. }
    split.
    + cbn [map]. constructor; [|exact Hnd].
      intros H. apply in_map_iff in H. destruct H as (m & Em & Hm).
      apply (Hout m Hm). left. now symmetry.
    + intros m [<- | Hm]; [exact Hx|].
      intros H. apply (Hout m Hm). now right.
Qed.

Lemma unique_from_fixed (mentions : list Mention) :
  forall seen,
    NoDup (map mention_key mentions) ->
    (forall m, In m mentions -> ~ In (mention_key m) seen) ->
    unique_from seen mentions = mentions.
Proof.
  induction mentions as [|x rest IH]; intros seen Hnd Hout; cbn [unique_from];
    [reflexivity|].
  change (player_name x, take 100 (context x)) with (mention_key x).
  destruct (existsb (key_eqb (mention_key x)) seen) eqn:E.
  - apply seen_iff in E. exfalso. apply (Hout x); [now left | exact E].
  - f_equal. cbn [map] in Hnd. inversion Hnd as [|? ? Hx Hnd']; subst.
    apply IH; [exact Hnd'|].
    intros m Hm [H | H].
    + apply Hx. rewrite H. now apply in_map.
    + apply (Hout m); [now right | exact H].
Qed.

Lemma unique_from_covers (mentions : list Mention) (m : Mention) :
  forall seen,
    In m mentions ->
    In (mention_key m) seen
    \/ exists m', In m' (unique_from seen mentions) /\ mention_key m' = mention_key m.
Proof.
  induction mentions as [|x rest IH]; intros seen Hm; [contradiction|].
  cbn [unique_from].
  change (player_name x, take 100 (context x)) with (mention_key x).
  destruct (existsb (key_eqb (mention_key x)) seen) eqn:E.
  - destruct Hm as [<- | Hm]; [left; now apply seen_iff | now apply IH].
  - destruct Hm as [<- | Hm]; [right; exists x; split; [now left | reflexivity]|].
    destruct (IH (mention_key x :: seen) Hm) as [[H | H] | (m' & Hm' & Ek)].
    + right. exists x. split; [now left | exact H].
    + now left.
    + right. exists m'. split; [now right | exact Ek].
Qed.

Lemma extract_In_shape (transcript : string) (coach_team : option string) (m : Mention) :
  In m (extract_player_mentions PLAYER_TO_TEAM transcript coach_team) ->
  len (context m) <= 500
  /\ exists identifier, In (identifier, team m) PLAYER_TO_TEAM.
Proof.
  intros H. apply unique_from_In, all_mentions_In in H.
  destruct H as (identifier & t & start_pos & Hin & _ & ->).
  cbn [context team mention_at]. split; [apply len_take | now exists identifier].
Qed.

Lemma extract_keys_NoDup (transcript : string) (coach_team : option string) :
  NoDup (map mention_key
             (extract_player_mentions PLAYER_TO_TEAM transcript coach_team)).
Proof. apply (unique_from_keys _ []). Qed.

(** X3: the context of every mention is at most 500 characters long. *)
Theorem mention_context_bounded (transcript : string) (coach_team : option string)
    (m : Mention) :
  In m (extract_player_mentions PLAYER_TO_TEAM transcript coach_team) ->
  len (context m) <= 500.
Proof.
  intros H. apply unique_from_In, all_mentions_In in H.
  destruct H as (identifier & t & start_pos & _ & _ & ->).
  cbn [context mention_at]. apply len_take.
Qed.

(** X4: every mention stands for a real occurrence: some identifier of the
    index, bound to the mention's team, stands as a whole word at the
    mention's position in the lower-cased transcript. *)
Theorem mention_is_whole_word (transcript : string) (coach_team : option string)
    (m : Mention) :
  In m (extract_player_mentions PLAYER_TO_TEAM transcript coach_team) ->
  exists identifier,
    In (identifier, team m) PLAYER_TO_TEAM
    /\ whole_word_at identifier (lower transcript) (position m).
Proof.
  intros H. apply unique_from_In, all_mentions_In in H.
  destruct H as (identifier & t & start_pos & Hin & Hpos & ->).
  cbn [team position mention_at].
  exists identifier. split; [exact Hin | now apply finditer_whole_word].
Qed.

(** X5: a transcript in which no identifier of the index occurs yields no
    mention. *)
Theorem no_occurrence_no_mention (transcript : string) (coach_team : option string) :
  (forall identifier team,
      In (identifier, team) PLAYER_TO_TEAM ->
      ~ Spec.occurs_in identifier (lower transcript)) ->
  extract_player_mentions PLAYER_TO_TEAM transcript coach_team = [].
Proof.
  intros Hnone.
  destruct (extract_player_mentions PLAYER_TO_TEAM transcript coach_team)
    as [|m l] eqn:E; [reflexivity|].
  assert (Hm : In m (extract_player_mentions PLAYER_TO_TEAM transcript coach_team))
    by (rewrite E; now left).
  apply unique_from_In, all_mentions_In in Hm.
  destruct Hm as (identifier & t & start_pos & Hin & Hpos & _).
  exfalso. apply (Hnone identifier t Hin).
  apply (whole_word_occurs _ _ start_pos). now apply finditer_whole_word.
Qed.

(** X6: an identifier of the index that stands as a whole word somewhere in
    the lower-cased transcript is never lost: the result holds a mention
    under the canonical name of that identifier. *)
Theorem whole_word_is_mentioned (transcript : string) (coach_team : option string)
    (identifier team : string) (q : nat) :
  In (identifier, team) PLAYER_TO_TEAM ->
  whole_word_at identifier (lower transcript) q ->
  exists m,
    In m (extract_player_mentions PLAYER_TO_TEAM transcript coach_team)
    /\ player_name m = title (full_name PLAYER_TO_TEAM identifier team).
Proof.
  intros Hin Hq. apply whole_word_found in Hq.
  destruct (finditer identifier (lower transcript)) as [|start_pos l] eqn:E;
    [congruence|].
  set (m0 := mention_at PLAYER_TO_TEAM (re_split transcript) identifier team start_pos).
  assert (H0 : In m0 (all_mentions PLAYER_TO_TEAM transcript)).
  { apply all_mentions_In. exists identifier, team, start_pos.
    split; [exact Hin|]. split; [rewrite E; now left | reflexivity]. }
  destruct (unique_from_covers _ m0 [] H0) as [[] | (m' & Hm' & Ek)].
  exists m'. split; [exact Hm'|].
  unfold mention_key in Ek. injection Ek as Ename _. exact Ename.
Qed.

(** X7: no two mentions of the result share the name and the first 100
    characters of the context. *)
Theorem mention_keys_distinct (transcript : string) (coach_team : option string) :
  NoDup (map mention_key
             (extract_player_mentions PLAYER_TO_TEAM transcript coach_team)).
Proof. apply extract_keys_NoDup. Qed.

(** X8: deduplicating is idempotent: a list of mentions that went through
    it is not changed by going through it again. *)
Theorem deduplicate_idempotent (mentions : list Mention) :
  unique_from [] (unique_from [] mentions) = unique_from [] mentions.
Proof.
  apply unique_from_fixed.
  - apply (unique_from_keys _ []).
  - intros m _ [].
Qed.

End MentionFacts.

(** ** The roster index, continued *)

Section MoreRosterFacts.

Import PyStr Roster NotionsRoster.

Lemma split_from_nil (word : list ascii) (s : string) :
  split_from word s = [] <-> word = [] /\ blank s = true.
Proof.
  revert word. induction s as [|c s IH]; intros word; simpl.
  - destruct word; split; try tauto; try discriminate. intros [H _]. discriminate.
  - destruct (is_space c); simpl.
    + destruct word as [|w word].
      * rewrite IH. tauto.
      * split; [discriminate | intros [H _]; discriminate].
    + rewrite IH. split; [intros [H _]; discriminate | intros [_ H]; discriminate].
Qed.

Lemma last_item_none (l : list string) : last_item l = None <-> l = [].
Proof.
  induction l as [|x l IH]; simpl; [tauto|].
  destruct l as [|y l]; [split; discriminate|].
  rewrite IH. split; discriminate.
Qed.

Lemma last_name_none (player : string) :
  last_name player = None <-> blank player = true.
Proof.
  unfold last_name, split.
  destruct (last_item (split_from [] player)) eqn:E; simpl.
  - split; [discriminate|]. intros Hb.
    assert (H : split_from [] player = []) by (apply split_from_nil; now split).
    rewrite H in E. discriminate.
  - apply last_item_none, split_from_nil in E. tauto.
Qed.

Lemma register_none (team player : string) (d : Dict.t) :
  register team player d = None <-> last_name player = None.
Proof.
  unfold register. destruct (last_name player); [|tauto].
  destruct (negb _); split; discriminate.
Qed.

Lemma register_all_none (es : list (string * string)) :
  forall d,
    register_all es d = None
    <-> exists team player, In (team, player) es /\ last_name player = None.
Proof.
  induction es as [|[team player] es IH]; intros d; simpl.
  - split; [discriminate | intros (t & p & [] & _)].
  - destruct (register team player d) as [d1|] eqn:E.
    + rewrite IH. split.
      * intros (t & p & Hin & Hl). exists t, p. split; [now right | exact Hl].
      * intros (t & p & [Heq | Hin] & Hl).
        -- injection Heq as <- <-. apply (register_none team player d) in Hl.
           rewrite E in Hl. discriminate.
        -- now exists t, p.
    + split; [|reflexivity]. intros _. exists team, player.
      split; [now left | now apply (register_none team player d)].
Qed.

(** X9: building the index fails (the [IndexError] of [split()[-1]]) exactly
    when some player name of the table holds no token, that is, nothing but
    white space. *)
Theorem build_fails_on_blank_name (rosters : list (string * list string)) :
  build_player_to_team rosters = None
  <-> exists team player,
        In (team, player) (entries rosters) /\ blank player = true.
Proof.
  unfold build_player_to_team. rewrite register_all_none.
  split; intros (t & p & Hin & H); exists t, p; (split; [exact Hin|]);
    now apply last_name_none.
Qed.

(** A key that some entry of [es] writes as a full name, every such entry
    being of [team], ends up bound to [team]; so does a key bound to it
    before. *)
Lemma register_all_full_name (es : list (string * string)) (key team : string) :
  forall d d',
    register_all es d = Some d' ->
    (forall t p, In (t, p) es -> lower p = key -> t = team) ->
    Dict.get key d = Some team \/ (exists t p, In (t, p) es /\ lower p = key) ->
    Dict.get key d' = Some team.
Proof.
  induction es as [|[t0 p0] es IH]; intros d d' H Hsame Hor.
  - injection H as <-. destruct Hor as [Hg | (t & p & [] & _)]. exact Hg.
  - simpl in H. destruct (register t0 p0 d) as [d1|] eqn:E; [|discriminate].
    apply (IH d1 d' H).
    + intros t p Hin. apply Hsame. now right.
    + destruct (register_get _ _ _ _ key E) as (alias & _ & Hget).
      destruct (String.eqb key (lower p0)) eqn:Ek.
      * left. rewrite Hget. f_equal. apply String.eqb_eq in Ek.
        apply (Hsame t0 p0); [now left | now symmetry].
      * apply String.eqb_neq in Ek.
        destruct Hor as [Hg | (t & p & [Heq | Hin] & Hl)].
        -- left. rewrite Hget, Hg. now destruct (String.eqb key alias).
        -- injection Heq as <- <-. congruence.
        -- right. now exists t, p.
Qed.

(** X10: a player of the table is found under the lower-cased full name,
    with the player's team, provided the table does not list the same name
    (up to case) for another team. *)
Theorem full_name_lookup (rosters : list (string * list string)) (index : Dict.t)
    (team player : string) :
  build_player_to_team rosters = Some index ->
  In (team, player) (entries rosters) ->
  (forall t p, In (t, p) (entries rosters) -> lower p = lower player -> t = team) ->
  Dict.get (lower player) index = Some team.
Proof.
  intros Hbuild Hin Hsame.
  apply (register_all_full_name (entries rosters) (lower player) team [] index Hbuild Hsame).
  right. now exists team, player.
Qed.

Lemma set_In (k v : string) (d : Dict.t) (e : string * string) :
  In e (Dict.set k v d) -> e = (k, v) \/ In e d.
Proof.
  induction d as [|[k' v'] d IH]; simpl.
  - intros [<- | []]. now left.
  - destruct (String.eqb k k'); simpl.
    + intros [<- | H]; [now left | right; now right].
    + intros [<- | H]; [right; now left|].
      destruct (IH H) as [-> | H']; [now left | right; now right].
Qed.

Lemma register_In (team player : string) (d d' : Dict.t) (e : string * string) :
  register team player d = Some d' ->
  In e d' ->
  In e d \/ (snd e = team /\ (fst e = lower player \/ last_name player = Some (fst e))).
Proof.
  unfold register. destruct (last_name player) as [alias|]; [|discriminate].
  destruct (negb _); intros H He; injection H as <-.
  - apply set_In in He. destruct He as [-> | He]; [right; simpl; auto|].
    apply set_In in He. destruct He as [-> | He]; [right; simpl; auto | now left].
  - apply set_In in He. destruct He as [-> | He]; [right; simpl; auto | now left].
Qed.

Lemma register_all_In (es : list (string * string)) (e : string * string) :
  forall d d',
    register_all es d = Some d' ->
    In e d' ->
    In e d
    \/ exists player,
         In (snd e, player) es
         /\ (fst e = lower player \/ last_name player = Some (fst e)).
Proof.
  induction es as [|[t0 p0] es IH]; intros d d' H He.
  - injection H as <-. now left.
  - simpl in H. destruct (register t0 p0 d) as [d1|] eqn:E; [|discriminate].
    destruct (IH d1 d' H He) as [H1 | (player & Hin & Hk)].
    + destruct (register_In _ _ _ _ _ E H1) as [H0 | [Ht Hk]]; [now left|].
      right. exists p0. split; [left; now rewrite Ht | exact Hk].
    + right. exists player. split; [now right | exact Hk].
Qed.

(** X11: every entry of the index comes from the table: its key is the
    lower-cased full name or the lower-cased last token of a player listed
    for the team it is bound to; and every key is lower-case. *)
Theorem index_entries_from_table (rosters : list (string * list string))
    (index : Dict.t) (key team : string) :
  build_player_to_team rosters = Some index ->
  In (key, team) index ->
  lower key = key
  /\ exists player,
       In (team, player) (entries rosters)
       /\ (key = lower player \/ last_name player = Some key).
Proof.
  intros Hbuild Hin.
  destruct (register_all_In _ _ _ _ Hbuild Hin) as [[] | (player & Hp & Hk)].
  simpl in Hp, Hk. split; [|now exists player].
  destruct Hk as [-> | Hl]; [apply lower_idem|].
  unfold last_name in Hl. destruct (last_item (split player)); [|discriminate].
  injection Hl as <-. apply lower_idem.
Qed.

End MoreRosterFacts.

(** ** Aliases and full names in the roster index *)

Section AliasFacts.

Import PyStr Roster Aux NotionsRoster.

Lemma is_space_lower_char (c : ascii) : is_space (lower_char c) = is_space c.
Proof. destruct c as [[] [] [] [] [] [] [] []]; reflexivity. Qed.

Lemma space_free_lower (s : string) : space_free (lower s) = space_free s.
Proof.
  induction s as [|c s IH]; simpl; [reflexivity|].
  now rewrite is_space_lower_char, IH.
Qed.

Lemma space_free_of_list (l : list ascii) :
  Forall (fun c => is_space c = false) l ->
  space_free (string_of_list_ascii l) = true.
Proof.
  induction 1 as [|c l Hc Hl IH]; simpl; [reflexivity|].
  now rewrite Hc, IH.
Qed.

(** The tokens of [split()] hold no white space and are not empty. *)
Lemma split_from_tokens (s : string) :
  forall word,
    Forall (fun c => is_space c = false) word ->
    Forall (fun token => space_free token = true /\ token <> EmptyString)
           (split_from word s).
Proof.
  induction s as [|c s IH]; intros word Hword; simpl.
  - destruct word as [|w word]; constructor; [|constructor].
    split; [apply space_free_of_list, Forall_rev, Hword|].
    simpl. rewrite string_of_list_app. destruct (string_of_list_ascii (rev word));
      discriminate.
  - destruct (is_space c) eqn:Ec.
    + destruct word as [|w word]; [apply IH; constructor|].
      constructor; [|apply IH; constructor].
      split; [apply space_free_of_list, Forall_rev, Hword|].
      simpl. rewrite string_of_list_app. destruct (string_of_list_ascii (rev word));
        discriminate.
    + apply IH. now constructor.
Qed.

(** A text without white space is its own and only token. *)
Lemma split_from_space_free (s : string) :
  forall word,
    space_free s = true ->
    word <> [] \/ s <> EmptyString ->
    split_from word s = [(string_of_list_ascii (rev word) ++ s)%string].
Proof.
  induction s as [|c s IH]; intros word Hs Hne; simpl.
  - destruct word as [|w word]; [destruct Hne as [H | H]; congruence|].
    now rewrite append_empty_r.
  - simpl in Hs. apply andb_true_iff in Hs. destruct Hs as [Hc Hs].
    apply negb_true_iff in Hc. rewrite Hc.
    rewrite (IH (c :: word) Hs) by (left; discriminate).
    simpl. now rewrite string_of_list_app, append_assoc.
Qed.

Lemma last_item_In (l : list string) (x : string) : last_item l = Some x -> In x l.
Proof.
  induction l as [|y l IH]; simpl; [discriminate|].
  destruct l as [|z l]; [intros H; injection H as ->; now left|].
  intros H. right. now apply IH.
Qed.

(** A last name holds no white space and is not empty. *)
Lemma last_name_shape (player key : string) :
  last_name player = Some key -> space_free key = true /\ key <> EmptyString.
Proof.
  unfold last_name, split.
  destruct (last_item (split_from [] player)) as [token|] eqn:E; [|discriminate].
  simpl. intros H. injection H as <-.
  apply last_item_In in E.
  pose proof (split_from_tokens player [] (Forall_nil _)) as Htokens.
  rewrite Forall_forall in Htokens. destruct (Htokens _ E) as [Hfree Hne].
  split; [now rewrite space_free_lower|].
  destruct token; [congruence | discriminate].
Qed.

(** A player whose whole name is a last name has that last name. *)
Lemma full_name_is_alias (player key p : string) :
  last_name player = Some key -> lower p = key -> last_name p = Some key.
Proof.
  intros Hlast Hp. destruct (last_name_shape _ _ Hlast) as [Hfree Hne].
  subst key. rewrite space_free_lower in Hfree.
  unfold last_name, split.
  rewrite (split_from_space_free p [] Hfree).
  - reflexivity.
  - right. intros ->. now apply Hne.
Qed.

(** What the entries of [es] leave of a key that was bound before them: the
    team of the last full name among them, or else what it was bound to. *)
Lemma register_all_later_full_name (es : list (string * string)) :
  forall d d' k v,
    register_all es d = Some d' ->
    Dict.get k d = Some v ->
    Dict.get k d'
    = Some (match Spec.later_full_name k es with Some t => t | None => v end).
Proof.
  induction es as [|[team player] es IH]; intros d d' k v H Hget.
  - injection H as <-. exact Hget.
  - cbn [register_all] in H.
    destruct (register team player d) as [d1|] eqn:E; [|discriminate].
    destruct (register_get _ _ _ _ k E) as (alias & _ & Hd1).
    rewrite Hget in Hd1.
    assert (Hd1' : Dict.get k d1
                   = Some (if String.eqb k (lower player) then team else v)).
    { rewrite Hd1. destruct (String.eqb k (lower player)); [reflexivity|].
      now destruct (String.eqb k alias). }
    rewrite (IH d1 d' k _ H Hd1'). cbn [Spec.later_full_name].
    destruct (Spec.later_full_name k es); [reflexivity|].
    now destruct (String.eqb k (lower player)).
Qed.

(** C6, amended.  One pass of the loop always binds the player's lower-cased
    full name to the player's team, whatever the key held; it binds the
    player's last name only when that key is not bound yet, and leaves every
    other bound key alone.  So after construction an alias key maps to the
    team of the first player whose last name produced it, unless a player
    listed after that one has the key as lower-cased full name: then it maps
    to the team of the last such player. *)
Theorem first_alias_wins_unless_full_name
    (rosters : list (string * list string)) (index : Dict.t)
    (key team player : string) (before after : list (string * string)) :
  build_player_to_team rosters = Some index ->
  entries rosters = (before ++ (team, player) :: after)%list ->
  last_name player = Some key ->
  Forall (fun e => last_name (snd e) <> Some key) before ->
  Dict.get key index
  = Some (match Spec.later_full_name key after with
          | Some later_team => later_team
          | None => team
          end)
  /\ (forall t p d d',
        register t p d = Some d' ->
        Dict.get (lower p) d' = Some t
        /\ (forall alias,
              last_name p = Some alias ->
              alias <> lower p ->
              Dict.get alias d'
              = match Dict.get alias d with
                | Some bound => Some bound
                | None => Some t
                end)
        /\ (forall k v,
              k <> lower p -> Dict.get k d = Some v -> Dict.get k d' = Some v)).
Proof.
  intros Hbuild Hsplit Hlast Hfirst. split.
  - unfold build_player_to_team in Hbuild. rewrite Hsplit in Hbuild.
    apply register_all_app in Hbuild. destruct Hbuild as (d1 & H1 & H2).
    cbn [register_all] in H2.
    destruct (register team player d1) as [d2|] eqn:E; [|discriminate].
    apply (register_all_later_full_name _ _ _ _ _ H2).
    assert (Hfull : Forall (fun e => lower (snd e) <> key) before).
    { rewrite Forall_forall in Hfirst. apply Forall_forall. intros e He Hp.
      apply (Hfirst e He). now apply (full_name_is_alias player). }
    destruct (register_get _ _ _ _ key E) as (alias & Hl & ->).
    rewrite Hlast in Hl. injection Hl as <-.
    rewrite String.eqb_refl.
    rewrite (register_all_untouched _ _ _ _ H1 Hfull Hfirst).
    now destruct (String.eqb key (lower player)).
  - intros t p d d' E. split; [|split].
    + destruct (register_get _ _ _ _ (lower p) E) as (alias & _ & ->).
      now rewrite String.eqb_refl.
    + intros alias Hl Hne.
      destruct (register_get _ _ _ _ alias E) as (alias' & Hl' & ->).
      rewrite Hl in Hl'. injection Hl' as <-.
      assert (E1 : String.eqb alias (lower p) = false) by now apply String.eqb_neq.
      now rewrite E1, String.eqb_refl.
    + intros k v Hk Hget.
      destruct (register_get _ _ _ _ k E) as (alias & _ & ->).
      assert (E1 : String.eqb k (lower p) = false) by now apply String.eqb_neq.
      rewrite E1, Hget. now destruct (String.eqb k alias).
Qed.

End AliasFacts.

(** In the shipped table "Draymond Green" comes before "Josh Green" and no
    player is called "Green" alone, so "green" is a Warriors alias.  In a
    table with "Draymond Green" of the Warriors and then "Green" of the
    Rockets, the key "green" ends with the Rockets. *)
Lemma first_alias_wins_unless_full_name_witness :
  Dict.get "green" Roster.PLAYER_TO_TEAM = Some "Golden State Warriors"
  /\ Dict.get "green" [ ("draymond green", "Golden State Warriors");
                        ("green", "Houston Rockets") ]
     = Some "Houston Rockets".
Proof.
  split.
  - destruct (first_alias_wins_unless_full_name Roster.NBA_ROSTERS Roster.PLAYER_TO_TEAM
                "green" "Golden State Warriors" "Draymond Green"
                (firstn 17 (Roster.entries Roster.NBA_ROSTERS))
                (skipn 18 (Roster.entries Roster.NBA_ROSTERS))) as [W _].
    + vm_compute. reflexivity.
    + vm_compute. reflexivity.
    + vm_compute. reflexivity.
    + apply (Forall_checked _
               (fun e => negb (Aux.option_eqb (Roster.last_name (snd e)) "green"))).
      * intros x. apply option_eqb_false.
      * vm_compute. reflexivity.
    + rewrite W. vm_compute. reflexivity.
  - destruct (first_alias_wins_unless_full_name
                [ ("Golden State Warriors", ["Draymond Green"]);
                  ("Houston Rockets", ["Green"]) ]
                [ ("draymond green", "Golden State Warriors");
                  ("green", "Houston Rockets") ]
                "green" "Golden State Warriors" "Draymond Green"
                [] [("Houston Rockets", "Green")]) as [W _].
    + vm_compute. reflexivity.
    + vm_compute. reflexivity.
    + vm_compute. reflexivity.
    + constructor.
    + rewrite W. vm_compute. reflexivity.
Defined.

(** ** The scorer, continued *)

Section MoreScorerFacts.

Import PyStr PyNum Scorer Aux NotionsScorer.

#[local] Open Scope float_scope.

(** The numbers of a result, by the two match counts. *)
Lemma analyze_numbers (context : string) :
  let p := List.length (found POSITIVE_INDICATORS (lower context)) in
  let n := List.length (found NEGATIVE_INDICATORS (lower context)) in
  let r := analyze_sentiment_rules context in
  (p <= List.length POSITIVE_INDICATORS)%nat
  /\ (n <= List.length NEGATIVE_INDICATORS)%nat
  /\ score_of r = branch_score p n
  /\ label_of r = branch_label p n
  /\ confidence_of r = branch_confidence p n.
Proof.
  intros p n r.
  split; [apply found_length|]. split; [apply found_length|].
  unfold r. rewrite analyze_unfold. fold p n.
  destruct (calculate_cases (found POSITIVE_INDICATORS (lower context))
              (found NEGATIVE_INDICATORS (lower context))
              (found NEUTRAL_INDICATORS (lower context)))
    as [(Ep & En & ->) | (H1 & ->)].
  - unfold p, n. rewrite Ep, En. repeat split.
  - fold p n in H1 |- *.
    unfold branch_score, branch_label, branch_confidence.
    rewrite (matched_true p n H1). repeat split.
Qed.

Lemma eqb_bool_iff (a b : bool) : Bool.eqb a b = true -> (a = true <-> b = true).
Proof. destruct a, b; simpl; intros H; try discriminate; tauto. Qed.

(** X12: scoring does not depend on the case of the context: the
    lower-cased context gets the same result. *)
Theorem rules_ignore_case (context : string) :
  analyze_sentiment_rules (lower context) = analyze_sentiment_rules context.
Proof. rewrite !analyze_unfold, lower_idem. reflexivity. Qed.

Lemma score_sign_counts (p n : nat) :
  (p <= List.length POSITIVE_INDICATORS)%nat ->
  (n <= List.length NEGATIVE_INDICATORS)%nat ->
  ((0 <? branch_score p n) = true <-> (n < p)%nat)
  /\ ((branch_score p n <? 0) = true <-> (p < n)%nat)
  /\ (p = n -> branch_score p n = 0 /\ branch_label p n = "neutral"%string)
  /\ (n = 0%nat -> (1 <= p)%nat -> branch_label p n = "positive"%string)
  /\ (p = 0%nat -> (1 <= n)%nat -> branch_label p n = "negative"%string).
Proof.
  intros Hp Hn.
  assert (H : (Bool.eqb (0 <? branch_score p n) (n <? p)%nat
               && Bool.eqb (branch_score p n <? 0) (p <? n)%nat
               && implb (p =? n)%nat
                        (Leibniz.eqb (branch_score p n) 0
                         && String.eqb (branch_label p n) "neutral")
               && implb ((n =? 0)%nat && (1 <=? p)%nat)
                        (String.eqb (branch_label p n) "positive")
               && implb ((p =? 0)%nat && (1 <=? n)%nat)
                        (String.eqb (branch_label p n) "negative"))%bool
              = true).
  { revert p n Hp Hn.
    apply (all_counts_sound
             (fun p n =>
                (Bool.eqb (0 <? branch_score p n) (n <? p)%nat
                 && Bool.eqb (branch_score p n <? 0) (p <? n)%nat
                 && implb (p =? n)%nat
                          (Leibniz.eqb (branch_score p n) 0
                           && String.eqb (branch_label p n) "neutral")
                 && implb ((n =? 0)%nat && (1 <=? p)%nat)
                          (String.eqb (branch_label p n) "positive")
                 && implb ((p =? 0)%nat && (1 <=? n)%nat)
                          (String.eqb (branch_label p n) "negative"))%bool)).
    vm_compute. reflexivity. }
  apply andb_true_iff in H. destruct H as [H H5].
  apply andb_true_iff in H. destruct H as [H H4].
  apply andb_true_iff in H. destruct H as [H H3].
  apply andb_true_iff in H. destruct H as [H1 H2].
  split; [|split; [|split; [|split]]].
  - rewrite (eqb_bool_iff _ _ H1). apply Nat.ltb_lt.
  - rewrite (eqb_bool_iff _ _ H2). apply Nat.ltb_lt.
  - intros E. apply Nat.eqb_eq in E. rewrite E in H3. cbn [implb] in H3.
    apply andb_true_iff in H3. destruct H3 as [Hs Hl].
    split; [apply Leibniz.eqb_spec; exact Hs | apply String.eqb_eq; exact Hl].
  - intros E0 E1. apply Nat.eqb_eq in E0. apply Nat.leb_le in E1.
    rewrite E0, E1 in H4. cbn [implb andb] in H4. apply String.eqb_eq. exact H4.
  - intros E0 E1. apply Nat.eqb_eq in E0. apply Nat.leb_le in E1.
    rewrite E0, E1 in H5. cbn [implb andb] in H5. apply String.eqb_eq. exact H5.
Qed.

(** X13: the sign of the score is the sign of posCount - negCount: the score
    is above 0 exactly when more positive than negative phrases match, below
    0 exactly when fewer do, and 0 when as many do.  With positive matches
    only the label is "positive", with negative matches only it is
    "negative", and with as many of each it is "neutral". *)
Theorem rules_score_sign (context : string) :
  let p := List.length (found POSITIVE_INDICATORS (lower context)) in
  let n := List.length (found NEGATIVE_INDICATORS (lower context)) in
  let r := analyze_sentiment_rules context in
  ((0 <? score_of r) = true <-> (n < p)%nat)
  /\ ((score_of r <? 0) = true <-> (p < n)%nat)
  /\ (p = n -> score_of r = 0 /\ label_of r = "neutral"%string)
  /\ (n = 0%nat -> (1 <= p)%nat -> label_of r = "positive"%string)
  /\ (p = 0%nat -> (1 <= n)%nat -> label_of r = "negative"%string).
Proof.
  intros p n r. unfold r. clear r.
  destruct (analyze_numbers context) as (Hp & Hn & -> & -> & _).
  exact (score_sign_counts _ _ Hp Hn).
Qed.

Lemma clamp_idle_counts (p n : nat) :
  (p <= List.length POSITIVE_INDICATORS)%nat ->
  (n <= List.length NEGATIVE_INDICATORS)%nat ->
  (-1 <? branch_score p n) = true
  /\ (branch_score p n <? 1) = true
  /\ ((1 <= p + n)%nat -> branch_score p n = raw_score p n).
Proof.
  intros Hp Hn.
  assert (H : ((-1 <? branch_score p n) && (branch_score p n <? 1)
               && implb (matched p n)
                        (Leibniz.eqb (branch_score p n) (raw_score p n)))%bool = true).
  { revert p n Hp Hn.
    apply (all_counts_sound
             (fun p n =>
                ((-1 <? branch_score p n) && (branch_score p n <? 1)
                 && implb (matched p n)
                          (Leibniz.eqb (branch_score p n) (raw_score p n)))%bool)).
    vm_compute. reflexivity. }
  apply andb_true_iff in H. destruct H as [H H3].
  apply andb_true_iff in H. destruct H as [H1 H2].
  split; [exact H1|]. split; [exact H2|].
  intros E. rewrite (matched_true p n E) in H3. cbn [implb] in H3.
  apply Leibniz.eqb_spec. exact H3.
Qed.

(** X14: the clamp never changes anything: the score is the quotient itself
    whenever a phrase matches, and it lies strictly between -1 and 1. *)
Theorem rules_clamp_idle (context : string) :
  let p := List.length (found POSITIVE_INDICATORS (lower context)) in
  let n := List.length (found NEGATIVE_INDICATORS (lower context)) in
  let score := score_of (analyze_sentiment_rules context) in
  (-1 <? score) = true
  /\ (score <? 1) = true
  /\ ((1 <= p + n)%nat ->
      score = float_of_int (Z.of_nat p - Z.of_nat n)
              / (float_of_int (Z.of_nat p + Z.of_nat n) + 0.001)).
Proof.
  intros p n score. unfold score. clear score.
  destruct (analyze_numbers context) as (Hp & Hn & -> & _).
  fold p n in Hp, Hn |- *. clearbody p n.
  destruct (clamp_idle_counts p n Hp Hn) as (H1 & H2 & H3).
  split; [exact H1|]. split; [exact H2|].
  intros E. rewrite (H3 E). reflexivity.
Qed.

Lemma confidence_saturates_counts (p n : nat) :
  (p <= List.length POSITIVE_INDICATORS)%nat ->
  (n <= List.length NEGATIVE_INDICATORS)%nat ->
  ((5 <= p + n)%nat -> branch_confidence p n = 0.9)
  /\ ((p + n < 5)%nat -> (branch_confidence p n <? 0.9) = true).
Proof.
  intros Hp Hn.
  assert (H : (if (5 <=? p + n)%nat
               then Leibniz.eqb (branch_confidence p n) 0.9
               else branch_confidence p n <? 0.9) = true).
  { revert p n Hp Hn.
    apply (all_counts_sound
             (fun p n =>
                if (5 <=? p + n)%nat
                then Leibniz.eqb (branch_confidence p n) 0.9
                else branch_confidence p n <? 0.9)).
    vm_compute. reflexivity. }
  split.
  - intros E. apply Nat.leb_le in E. rewrite E in H. apply Leibniz.eqb_spec. exact H.
  - intros E. apply Nat.leb_gt in E. rewrite E in H. exact H.
Qed.

(** X15: the confidence is 0.9 exactly from five matched phrases on; with
    fewer matches it is below 0.9. *)
Theorem rules_confidence_saturates (context : string) :
  let p := List.length (found POSITIVE_INDICATORS (lower context)) in
  let n := List.length (found NEGATIVE_INDICATORS (lower context)) in
  let confidence := confidence_of (analyze_sentiment_rules context) in
  ((5 <= p + n)%nat -> confidence = 0.9)
  /\ ((p + n < 5)%nat -> (confidence <? 0.9) = true).
Proof.
  intros p n confidence. unfold confidence. clear confidence.
  destruct (analyze_numbers context) as (Hp & Hn & _ & _ & ->).
  exact (confidence_saturates_counts _ _ Hp Hn).
Qed.

Lemma In_checked (x : string) (l : list string) :
  existsb (String.eqb x) l = true -> In x l.
Proof.
  rewrite existsb_exists. intros (y & Hy & E). apply String.eqb_eq in E. now subst.
Qed.

Lemma not_In_checked (x : string) (l : list string) :
  existsb (String.eqb x) l = false -> ~ In x l.
Proof.
  intros H Hin. assert (E : existsb (String.eqb x) l = true).
  { apply existsb_exists. exists x. split; [exact Hin | apply String.eqb_refl]. }
  congruence.
Qed.

Lemma one_match_right (x : string) (a b : list string) :
  In x b -> (1 <= List.length a + List.length b)%nat.
Proof. destruct b; [contradiction | cbn [List.length]; lia]. Qed.

(** X16: "evaluate" is in the negative list as well as in the neutral
    list, so a context that holds it is never scored by the neutral rule: it
    counts as a negative match, is reported among the indicators, and the
    confidence is at least 0.5. *)
Theorem evaluate_counts_as_negative (context : string) :
  Spec.occurs_in "evaluate" (lower context) ->
  let r := analyze_sentiment_rules context in
  In "evaluate"%string (found NEGATIVE_INDICATORS (lower context))
  /\ indicators_of r
     = (found POSITIVE_INDICATORS (lower context)
        ++ found NEGATIVE_INDICATORS (lower context))%list
  /\ In "evaluate"%string (indicators_of r)
  /\ (0.5 <=? confidence_of r) = true.
Proof.
  intros Hocc r.
  assert (Hin : In "evaluate"%string (found NEGATIVE_INDICATORS (lower context))).
  { apply found_In. split; [|exact Hocc]. apply In_checked. vm_compute. reflexivity. }
  assert (H1 : (1 <= List.length (found POSITIVE_INDICATORS (lower context))
                    + List.length (found NEGATIVE_INDICATORS (lower context)))%nat).
  { apply (one_match_right _ _ _ Hin). }
  unfold r. rewrite analyze_unfold, (calculate_match _ _ _ H1).
  cbn [indicators_of confidence_of].
  split; [exact Hin|]. split; [reflexivity|].
  split; [apply in_or_app; now right|].
  apply code_confidence_bounds; [apply found_length.. | exact H1].
Qed.

Lemma distinct_phrases_NoDup (l : list string) :
  distinct_phrases l = true -> NoDup l.
Proof.
  induction l as [|x l IH]; simpl; [constructor|].
  intros H. apply andb_true_iff in H. destruct H as [Hx Hl].
  constructor; [|now apply IH].
  apply not_In_checked. now apply negb_true_iff.
Qed.

Lemma found_NoDup (indicators : list string) (text : string) :
  distinct_phrases indicators = true -> NoDup (found indicators text).
Proof. intros H. apply NoDup_filter. now apply distinct_phrases_NoDup. Qed.

(** X17: the indicators of a result never list a phrase twice. *)
Theorem rules_indicators_distinct (context : string) :
  NoDup (indicators_of (analyze_sentiment_rules context)).
Proof.
  rewrite analyze_unfold.
  destruct (calculate_cases (found POSITIVE_INDICATORS (lower context))
              (found NEGATIVE_INDICATORS (lower context))
              (found NEUTRAL_INDICATORS (lower context)))
    as [(_ & _ & ->) | (_ & ->)]; cbn [indicators_of].
  - destruct (found NEUTRAL_INDICATORS (lower context)) as [|x l] eqn:E.
    + repeat constructor. intros [].
    + rewrite <- E. apply found_NoDup. vm_compute. reflexivity.
  - apply NoDup_app.
    + apply found_NoDup. vm_compute. reflexivity.
    + apply found_NoDup. vm_compute. reflexivity.
    + intros x Hp Hn. apply found_In in Hp, Hn.
      destruct Hp as [Hp _]. destruct Hn as [Hn _].
      assert (D : disjoint_phrases POSITIVE_INDICATORS NEGATIVE_INDICATORS = true)
        by (vm_compute; reflexivity).
      unfold disjoint_phrases in D. rewrite forallb_forall in D.
      specialize (D x Hp). apply negb_true_iff in D.
      exact (not_In_checked _ _ D Hn).
Qed.

End MoreScorerFacts.

(** ** The sentiment store, continued *)

Section MoreStoreFacts.

Import Store Notions.

Lemma same_key_iff (a b : PlayerMention) :
  same_key a b = true <-> store_key a = store_key b.
Proof.
  unfold same_key, store_key. rewrite !andb_true_iff, !String.eqb_eq. split.
  - intros [[-> ->] ->]. reflexivity.
  - intros E. injection E as -> -> ->. auto.
Qed.

Lemma same_key_refl (a : PlayerMention) : same_key a a = true.
Proof. now apply same_key_iff. Qed.

Lemma same_key_false_iff (a b : PlayerMention) :
  same_key a b = false <-> store_key a <> store_key b.
Proof.
  rewrite <- same_key_iff. destruct (same_key a b); split; congruence.
Qed.

Lemma filter_filter_skip {A : Type} (f g : A -> bool) (l : list A) :
  (forall x, f x = true -> g x = true) ->
  filter f (filter g l) = filter f l.
Proof.
  intros H. induction l as [|x l IH]; simpl; [reflexivity|].
  destruct (g x) eqn:Eg; simpl.
  - now rewrite IH.
  - destruct (f x) eqn:Ef; [|exact IH]. apply H in Ef. congruence.
Qed.

(** Rows under another key are left alone by an insert. *)
Lemma insert_frame (m m' : PlayerMention) (now : string) (db : Table) :
  same_key m' m = false ->
  stored m (insert_or_replace m' now db) = stored m db.
Proof.
  intros Hne. unfold stored, insert_or_replace. cbn [rows].
  rewrite filter_app. cbn [filter mention]. rewrite Hne, app_nil_r.
  apply filter_filter_skip. intros r Hr.
  apply negb_true_iff, same_key_false_iff. apply same_key_iff in Hr.
  apply same_key_false_iff in Hne. congruence.
Qed.

Lemma save_from_app (utcnow : nat -> string) (a b : list PlayerMention) :
  forall i db,
    save_from utcnow i (a ++ b) db
    = save_from utcnow (i + List.length a) b (save_from utcnow i a db).
Proof.
  induction a as [|m a IH]; intros i db; simpl.
  - now rewrite Nat.add_0_r.
  - rewrite IH. f_equal. lia.
Qed.

Lemma save_from_last_id (utcnow : nat -> string) (ms : list PlayerMention) :
  forall i db,
    last_id (save_from utcnow i ms db) = (last_id db + Z.of_nat (List.length ms))%Z.
Proof.
  induction ms as [|m ms IH]; intros i db; cbn [save_from List.length].
  - lia.
  - rewrite IH. cbn [insert_or_replace last_id]. lia.
Qed.

Lemma save_from_frame (utcnow : nat -> string) (m : PlayerMention)
    (ms : list PlayerMention) :
  forall i db,
    Forall (fun m' => same_key m' m = false) ms ->
    stored m (save_from utcnow i ms db) = stored m db.
Proof.
  induction ms as [|m' ms IH]; intros i db H; cbn [save_from]; [reflexivity|].
  inversion H as [|? ? Hm' H']; subst.
  rewrite IH by exact H'. now apply insert_frame.
Qed.

(** X18: after a batch is saved, the row under the key of a record is
    the record of the batch that was written last under that key, with the
    time of its own insert and the rowid that insert was given. *)
Theorem saved_batch_last_wins (utcnow : nat -> string) (db : Table)
    (before after : list PlayerMention) (m : PlayerMention) :
  Forall (fun m' => same_key m' m = false) after ->
  stored m (save_sentiment_results utcnow (before ++ m :: after) db)
  = [ {| id := (last_id db + Z.of_nat (List.length before) + 1)%Z;
         mention := m;
         analyzed_at := utcnow (List.length before) |} ].
Proof.
  intros Hafter. unfold save_sentiment_results.
  rewrite save_from_app. cbn [save_from Nat.add].
  rewrite save_from_frame by exact Hafter.
  rewrite insert_or_replace_last_wins, save_from_last_id. reflexivity.
Qed.

Lemma unique_after_filter {R K : Type} (key : R -> K) (keep : R -> bool) :
  forall table : list R,
    NoDup (map key table) -> NoDup (map key (filter keep table)).
Proof.
  intros table. induction table as [|x l IH]; simpl; [auto|].
  intros H. inversion H as [|? ? Hx Hl]; subst.
  destruct (keep x); simpl; [|now apply IH].
  constructor; [|now apply IH].
  intros Hin. apply Hx. apply in_map_iff in Hin. destruct Hin as (y & E & Hy).
  apply in_map_iff. exists y. split; [exact E|]. apply filter_In in Hy. tauto.
Qed.

Lemma insert_unique (m : PlayerMention) (now : string) (db : Table) :
  unique_keys db -> unique_keys (insert_or_replace m now db).
Proof.
  unfold unique_keys, insert_or_replace. cbn [rows]. intros H.
  rewrite map_app. cbn [map mention]. apply NoDup_app.
  - now apply unique_after_filter.
  - constructor; [intros [] | constructor].
  - intros k Hk [<- | []]. apply in_map_iff in Hk. destruct Hk as (r & E & Hr).
    apply filter_In in Hr. destruct Hr as [_ Hr].
    apply negb_true_iff, same_key_false_iff in Hr. congruence.
Qed.

Lemma save_from_unique (utcnow : nat -> string) (ms : list PlayerMention) :
  forall i db, unique_keys db -> unique_keys (save_from utcnow i ms db).
Proof.
  induction ms as [|m ms IH]; intros i db H; cbn [save_from]; [exact H|].
  apply IH. now apply insert_unique.
Qed.

(** X19: saving keeps the table free of duplicates: when no two rows share
    the key (video_id, player_name, context) before a batch is saved, no two
    rows share it afterwards, whatever the batch holds. *)
Theorem save_keeps_keys_unique (utcnow : nat -> string) (ms : list PlayerMention)
    (db : Table) :
  unique_keys db -> unique_keys (save_sentiment_results utcnow ms db).
Proof. apply save_from_unique. Qed.

Lemma ids_increase_weaken (b b' : Z) (l : list Row) :
  (b <= b')%Z -> ids_increase b' l -> ids_increase b l.
Proof. destruct l as [|r l]; simpl; [auto|]. intros Hb [H1 H2]. split; [lia | exact H2]. Qed.

Lemma ids_increase_filter (p : Row -> bool) (l : list Row) :
  forall b, ids_increase b l -> ids_increase b (filter p l).
Proof.
  induction l as [|r l IH]; intros b; simpl; [auto|].
  intros [H1 H2]. destruct (p r); simpl.
  - split; [exact H1 | now apply IH].
  - apply IH. apply (ids_increase_weaken b (id r)); [lia | exact H2].
Qed.

Lemma ids_increase_snoc (l : list Row) (r : Row) :
  forall b,
    ids_increase b l -> (b < id r)%Z -> Forall (fun x => (id x < id r)%Z) l ->
    ids_increase b (l ++ [r]).
Proof.
  induction l as [|x l IH]; intros b H Hb Hall; simpl.
  - auto.
  - destruct H as [H1 H2]. inversion Hall as [|? ? Hx Hl]; subst.
    split; [exact H1 | now apply IH].
Qed.

Lemma insert_numbered (m : PlayerMention) (now : string) (db : Table) (b : Z) :
  ids_increase b (rows db) ->
  Forall (fun r => (id r <= last_id db)%Z) (rows db) ->
  (b <= last_id db)%Z ->
  ids_increase b (rows (insert_or_replace m now db))
  /\ Forall (fun r => (id r <= last_id (insert_or_replace m now db))%Z)
            (rows (insert_or_replace m now db)).
Proof.
  intros Hinc Hall Hb. unfold insert_or_replace. cbn [rows last_id].
  assert (Hkept : Forall (fun r => (id r <= last_id db)%Z)
                    (filter (fun r => negb (same_key (mention r) m)) (rows db))).
  { apply Forall_forall. intros r Hr. apply filter_In in Hr.
    rewrite Forall_forall in Hall. apply Hall. tauto. }
  split.
  - apply ids_increase_snoc; cbn [id]; [now apply ids_increase_filter | lia |].
    eapply Forall_impl; [|exact Hkept]. cbn beta. intros r Hr. lia.
  - apply Forall_app. split.
    + eapply Forall_impl; [|exact Hkept]. cbn beta. intros r Hr. lia.
    + constructor; [cbn [id]; lia | constructor].
Qed.

Lemma save_from_numbered (utcnow : nat -> string) (ms : list PlayerMention) (b : Z) :
  forall i db,
    ids_increase b (rows db) ->
    Forall (fun r => (id r <= last_id db)%Z) (rows db) ->
    (b <= last_id db)%Z ->
    ids_increase b (rows (save_from utcnow i ms db))
    /\ Forall (fun r => (id r <= last_id (save_from utcnow i ms db))%Z)
              (rows (save_from utcnow i ms db)).
Proof.
  induction ms as [|m ms IH]; intros i db Hinc Hall Hb; cbn [save_from].
  - now split.
  - destruct (insert_numbered m (utcnow i) db b Hinc Hall Hb) as [H1 H2].
    apply IH; [exact H1 | exact H2 | cbn [insert_or_replace last_id]; lia].
Qed.

(** X20: rowids grow along the table and are never handed out twice: when
    the rowids of a table increase from row to row and none is above the
    counter, the same holds after a batch is saved, and the counter has
    advanced by the size of the batch. *)
Theorem save_keeps_ids_increasing (utcnow : nat -> string) (ms : list PlayerMention)
    (db : Table) (b : Z) :
  ids_increase b (rows db) ->
  Forall (fun r => (id r <= last_id db)%Z) (rows db) ->
  (b <= last_id db)%Z ->
  let db' := save_sentiment_results utcnow ms db in
  ids_increase b (rows db')
  /\ Forall (fun r => (id r <= last_id db')%Z) (rows db')
  /\ last_id db' = (last_id db + Z.of_nat (List.length ms))%Z.
Proof.
  intros Hinc Hall Hb db'. unfold db', save_sentiment_results.
  destruct (save_from_numbered utcnow ms b 0 db Hinc Hall Hb) as [H1 H2].
  split; [exact H1|]. split; [exact H2|]. apply save_from_last_id.
Qed.

Lemma filter_split_length {A : Type} (p : A -> bool) (l : list A) :
  List.length (filter p l) + List.length (filter (fun x => negb (p x)) l)
  = List.length l.
Proof.
  induction l as [|x l IH]; simpl; [reflexivity|].
  destruct (p x); simpl; lia.
Qed.

Lemma stored_at_most_one (m : PlayerMention) (db : Table) :
  unique_keys db -> List.length (stored m db) <= 1.
Proof.
  unfold unique_keys, stored. induction (rows db) as [|r l IH]; simpl; [lia|].
  intros H. inversion H as [|? ? Hr Hl]; subst.
  destruct (same_key (mention r) m) eqn:E; [|now apply IH].
  simpl. assert (Hnone : filter (fun r0 => same_key (mention r0) m) l = []).
  { destruct (filter (fun r0 => same_key (mention r0) m) l) as [|y ys] eqn:Ef;
      [reflexivity|].
    exfalso. apply Hr. assert (Hy : In y (filter (fun r0 => same_key (mention r0) m) l))
      by (rewrite Ef; now left).
    apply filter_In in Hy. destruct Hy as [Hy Ey].
    apply same_key_iff in E, Ey. apply in_map_iff. exists y. split; [congruence | exact Hy]. }
  rewrite Hnone. simpl. lia.
Qed.

Lemma insert_present_length (m : PlayerMention) (now : string) (db : Table) :
  unique_keys db -> stored m db <> [] ->
  List.length (rows (insert_or_replace m now db)) = List.length (rows db).
Proof.
  intros Hu Hp. unfold insert_or_replace. cbn [rows]. rewrite length_app. cbn [List.length].
  pose proof (filter_split_length (fun r => same_key (mention r) m) (rows db)) as Hs.
  pose proof (stored_at_most_one m db Hu) as H1. unfold stored in *.
  destruct (filter (fun r => same_key (mention r) m) (rows db)) as [|y ys];
    [congruence|]. cbn [List.length] in *. lia.
Qed.

Lemma insert_keeps_present (m m' : PlayerMention) (now : string) (db : Table) :
  stored m db <> [] -> stored m (insert_or_replace m' now db) <> [].
Proof.
  intros H. destruct (same_key m' m) eqn:E.
  - unfold stored, insert_or_replace. cbn [rows]. rewrite filter_app.
    cbn [filter mention]. rewrite E. intros Habs.
    apply app_eq_nil in Habs. destruct Habs as [_ Habs]. discriminate.
  - now rewrite insert_frame.
Qed.

Lemma save_from_present (utcnow : nat -> string) (m : PlayerMention)
    (ms : list PlayerMention) :
  forall i db,
    In m ms \/ stored m db <> [] ->
    stored m (save_from utcnow i ms db) <> [].
Proof.
  induction ms as [|m' ms IH]; intros i db H; cbn [save_from].
  - destruct H as [[] | H]. exact H.
  - apply IH. destruct H as [[-> | H] | H].
    + right. rewrite insert_or_replace_last_wins. discriminate.
    + now left.
    + right. now apply insert_keeps_present.
Qed.

Lemma save_from_same_length (utcnow : nat -> string) (ms : list PlayerMention) :
  forall i db,
    unique_keys db ->
    Forall (fun m => stored m db <> []) ms ->
    List.length (rows (save_from utcnow i ms db)) = List.length (rows db).
Proof.
  induction ms as [|m ms IH]; intros i db Hu Hall; cbn [save_from]; [reflexivity|].
  inversion Hall as [|? ? Hm Hrest]; subst.
  rewrite IH.
  - now apply insert_present_length.
  - now apply insert_unique.
  - eapply Forall_impl; [|exact Hrest]. cbn beta. intros m' Hm'.
    now apply insert_keeps_present.
Qed.

(** X21: saving the same batch a second time does not add a row: the table
    is as long after the second save as after the first (the table having
    had no two rows under one key to begin with). *)
Theorem second_save_adds_no_row (utcnow utcnow' : nat -> string)
    (ms : list PlayerMention) (db : Table) :
  unique_keys db ->
  let once := save_sentiment_results utcnow ms db in
  let twice := save_sentiment_results utcnow' ms once in
  List.length (rows twice) = List.length (rows once) /\ unique_keys twice.
Proof.
  intros Hu once twice. unfold twice, once, save_sentiment_results. split.
  - apply save_from_same_length.
    + now apply save_from_unique.
    + apply Forall_forall. intros m Hm. apply save_from_present. now left.
  - apply save_from_unique. now apply save_from_unique.
Qed.

End MoreStoreFacts.

(** ** Trend aggregation, continued *)

Section DateOrder.

Lemma ascii_compare_refl (a : ascii) : Ascii.compare a a = Eq.
Proof. unfold Ascii.compare. apply N.compare_refl. Qed.

Lemma string_compare_trans (a : string) :
  forall b c,
    String.compare a b <> Gt -> String.compare b c <> Gt -> String.compare a c <> Gt.
Proof.
  induction a as [|x a IH]; intros [|y b] [|z c]; simpl; try congruence.
  unfold Ascii.compare.
  destruct (N.compare_spec (N_of_ascii x) (N_of_ascii y)) as [Exy | Lxy | Gxy];
    destruct (N.compare_spec (N_of_ascii y) (N_of_ascii z)) as [Eyz | Lyz | Gyz];
    try congruence.
  - rewrite Exy, Eyz, N.compare_refl. apply IH.
  - intros _ _. rewrite Exy. apply N.compare_lt_iff in Lyz. rewrite Lyz. discriminate.
  - intros _ _. rewrite <- Eyz. apply N.compare_lt_iff in Lxy. rewrite Lxy. discriminate.
  - intros _ _. assert (L : (N_of_ascii x < N_of_ascii z)%N) by lia.
    apply N.compare_lt_iff in L. rewrite L. discriminate.
Qed.

Lemma string_leb_trans (a b c : string) :
  String.leb a b = true -> String.leb b c = true -> String.leb a c = true.
Proof.
  unfold String.leb. intros H1 H2.
  pose proof (string_compare_trans a b c) as H.
  destruct (String.compare a b); try discriminate;
    destruct (String.compare b c); try discriminate;
    destruct (String.compare a c); try reflexivity;
    exfalso; apply H; congruence.
Qed.

Lemma string_compare_refl (a : string) : String.compare a a = Eq.
Proof.
  induction a as [|x a IH]; simpl; [reflexivity|].
  now rewrite ascii_compare_refl.
Qed.

Lemma string_compare_flip (a b : string) :
  String.compare a b = Gt -> String.compare b a = Lt.
Proof. intros H. rewrite String.compare_antisym, H. reflexivity. Qed.

Lemma string_compare_lt_trans (a b c : string) :
  String.compare a b = Lt -> String.compare b c = Lt -> String.compare a c = Lt.
Proof.
  intros H1 H2.
  destruct (String.compare a c) eqn:E; [| reflexivity |].
  - apply String.compare_eq_iff in E. subst c.
    rewrite String.compare_antisym, H1 in H2. discriminate.
  - exfalso. apply (string_compare_trans a b c); congruence.
Qed.

End DateOrder.

Section MoreStoreQueries.

Import Store Notions.

Lemma reads_before_newer (r y : Row) :
  reads_before r y = true ->
  String.leb (date (mention y)) (date (mention r)) = true.
Proof.
  unfold reads_before, String.leb.
  destruct (String.compare (date (mention y)) (date (mention r)));
    [reflexivity | reflexivity | discriminate].
Qed.

Lemma reads_before_older (r y : Row) :
  reads_before r y = false ->
  String.leb (date (mention r)) (date (mention y)) = true.
Proof.
  unfold reads_before, String.leb.
  destruct (String.compare (date (mention y)) (date (mention r))) eqn:E;
    [| discriminate |]; intros _.
  - apply String.compare_eq_iff in E. now rewrite E, string_compare_refl.
  - now rewrite (string_compare_flip _ _ E).
Qed.

Lemma insert_desc_In (r x : Row) (l : list Row) :
  In x (insert_desc r l) <-> x = r \/ In x l.
Proof.
  induction l as [|y l IH]; simpl; [intuition congruence|].
  destruct (reads_before _ _); simpl; [intuition congruence|].
  rewrite IH. intuition congruence.
Qed.

Lemma order_by_date_desc_In (x : Row) (l : list Row) :
  In x (order_by_date_desc l) <-> In x l.
Proof.
  induction l as [|r l IH]; simpl; [tauto|].
  rewrite insert_desc_In, IH. intuition congruence.
Qed.

Lemma insert_desc_sorted (r : Row) (l : list Row) :
  dates_descend l -> dates_descend (insert_desc r l).
Proof.
  induction l as [|y l IH]; simpl; [auto|].
  intros [Hy Hl].
  destruct (reads_before r y) eqn:E; simpl.
  - apply reads_before_newer in E.
    split; [|split; assumption].
    constructor; [exact E|].
    eapply Forall_impl; [|exact Hy]. cbn beta. intros z Hz.
    now apply (string_leb_trans _ (date (mention y))).
  - apply reads_before_older in E.
    split; [|now apply IH].
    apply Forall_forall. intros z Hz. apply insert_desc_In in Hz.
    destruct Hz as [-> | Hz]; [exact E|].
    rewrite Forall_forall in Hy. now apply Hy.
Qed.

Lemma order_by_date_desc_sorted (l : list Row) : dates_descend (order_by_date_desc l).
Proof. induction l as [|r l IH]; simpl; [exact I | now apply insert_desc_sorted]. Qed.

Lemma firstn_In_list {A : Type} (n : nat) (l : list A) (x : A) :
  In x (firstn n l) -> In x l.
Proof.
  revert l. induction n as [|n IH]; intros [|y l]; simpl; try tauto.
  intros [H | H]; [now left | right; now apply IH].
Qed.

Lemma firstn_sorted (n : nat) (l : list Row) :
  dates_descend l -> dates_descend (firstn n l).
Proof.
  revert l. induction n as [|n IH]; intros [|y l]; simpl; auto.
  intros [Hy Hl]. split; [|now apply IH].
  apply Forall_forall. intros z Hz. apply firstn_In_list in Hz.
  rewrite Forall_forall in Hy. now apply Hy.
Qed.

(** X22: the rows fetched for a player are rows of the table stored under
    that player's name, at most 100 of them, from the newest date to the
    oldest (dates compared as text). *)
Theorem fetched_rows_sorted (name : string) (db : Table) :
  let fetched := select_player name db in
  dates_descend fetched
  /\ Forall (fun r => In r (rows db) /\ player_name (mention r) = name) fetched
  /\ List.length fetched = Nat.min 100 (List.length (rows_of_player name db)).
Proof.
  intros fetched. unfold fetched, select_player. split; [|split].
  - apply firstn_sorted, order_by_date_desc_sorted.
  - apply Forall_forall. intros r Hr.
    apply firstn_In_list in Hr. apply (proj1 (order_by_date_desc_In _ _)) in Hr.
    unfold rows_of_player in Hr. apply filter_In in Hr.
    destruct Hr as [Hr E]. apply String.eqb_eq in E. now split.
  - now rewrite length_firstn, order_by_date_desc_length.
Qed.

End MoreStoreQueries.

Section MoreTrendFacts.

Import Trend.

#[local] Open Scope float_scope.

Variable sum : list float -> float.
Variable round3 : float -> float.

Lemma select_player_nil (name : string) (db : Store.Table) :
  Store.select_player name db = [] <-> Store.rows_of_player name db = [].
Proof.
  pose proof (select_player_length name db) as H. split; intros E.
  - rewrite E in H. cbn [List.length] in H.
    destruct (Store.rows_of_player name db); [reflexivity | cbn [List.length] in H; lia].
  - rewrite E in H. cbn [List.length] in H.
    destruct (Store.select_player name db); [reflexivity | cbn [List.length] in H; lia].
Qed.

(** X23: the aggregation reports "no data" exactly for a player without any
    stored row; for every other player it returns a summary. *)
Theorem no_data_iff_no_rows (db : Store.Table) (name : string) :
  (Store.rows_of_player name db = []
   <-> compute_player_trends sum round3 db name
       = NoData ("No data found for " ++ name))
  /\ (Store.rows_of_player name db <> []
      <-> exists summary, compute_player_trends sum round3 db name = Found summary).
Proof.
  rewrite <- select_player_nil. unfold compute_player_trends.
  destruct (Store.select_player name db) as [|r rows]; split; split;
    try congruence; try discriminate; try (intros [summary H]; discriminate);
    try (intros _; eexists; reflexivity).
Qed.

(** X24: a summary carries the player's name, counts the fetched rows (the
    stored ones, capped at 100) and lists the first five fetched rows as the
    latest mentions, each with a context of at most 200 characters. *)
Theorem summary_shape (db : Store.Table) (name : string) (summary : Summary) :
  compute_player_trends sum round3 db name = Found summary ->
  let n := List.length (Store.rows_of_player name db) in
  player_name summary = name
  /\ mention_count summary = Nat.min 100 n
  /\ (1 <= mention_count summary <= 100)%nat
  /\ List.length (latest_mentions summary) = Nat.min 5 n
  /\ Forall (fun l => PyStr.len (l_context l) <= 200)%nat (latest_mentions summary)
  /\ map l_date (latest_mentions summary)
     = map (fun r => Store.date (Store.mention r))
           (firstn 5 (Store.select_player name db)).
Proof.
  intros H n. pose proof (select_player_length name db) as Hlen. fold n in Hlen.
  clearbody n. unfold compute_player_trends in H.
  destruct (Store.select_player name db) as [|r rows] eqn:E; [discriminate|].
  apply (f_equal (fun x => match x with Found s => s | NoData _ => summary end)) in H.
  cbv beta iota in H. rewrite <- H.
  cbn [player_name mention_count latest_mentions].
  split; [reflexivity|]. split; [exact Hlen|].
  split; [cbn [List.length] in Hlen |- *; lia|].
  split; [rewrite length_map, length_firstn, Hlen; lia|].
  split.
  - apply Forall_forall. intros l Hl. apply in_map_iff in Hl.
    destruct Hl as (x & <- & _). cbn [l_context latest_of]. apply len_take.
  - rewrite map_map. reflexivity.
Qed.

Lemma few_scores_stable (scores : list float) :
  (List.length scores <= 5)%nat ->
  trend_of (trend_diff_of sum scores) = "stable"%string.
Proof.
  intros H. unfold trend_diff_of, older_avg_of, older_scores.
  rewrite skipn_all2 by lia. apply trend_of_sub_self.
Qed.

End MoreTrendFacts.

(** ** Sentiment shifts *)

Section ShiftFacts.

Import Shifts.

#[local] Open Scope float_scope.

Variable sum : list float -> float.
Variable round3 : float -> float.

Lemma insert_name_In (x y : string) (sorted : list string) :
  In x (insert_name y sorted) <-> x = y \/ In x sorted.
Proof.
  induction sorted as [|z sorted IH]; simpl; [intuition congruence|].
  destruct (String.compare y z) eqn:E; simpl.
  - apply String.compare_eq_iff in E. subst z. intuition congruence.
  - intuition congruence.
  - rewrite IH. intuition congruence.
Qed.

Lemma distinct_In (x : string) (names : list string) :
  In x (distinct names) <-> In x names.
Proof.
  unfold distinct. induction names as [|y names IH]; simpl; [tauto|].
  rewrite insert_name_In, IH. intuition congruence.
Qed.

Lemma insert_name_ascend (x : string) (sorted : list string) :
  Notions.names_ascend sorted -> Notions.names_ascend (insert_name x sorted).
Proof.
  induction sorted as [|y sorted IH]; simpl; [auto|].
  intros [Hy Hs]. destruct (String.compare x y) eqn:E; simpl.
  - split; assumption.
  - split; [|split; assumption].
    constructor; [exact E|].
    eapply Forall_impl; [|exact Hy]. cbn beta. intros z Hz.
    now apply (string_compare_lt_trans x y z).
  - split; [|now apply IH].
    apply Forall_forall. intros z Hz. apply insert_name_In in Hz.
    destruct Hz as [-> | Hz]; [now apply string_compare_flip|].
    rewrite Forall_forall in Hy. now apply Hy.
Qed.

Lemma distinct_ascend (names : list string) : Notions.names_ascend (distinct names).
Proof.
  unfold distinct. induction names as [|y names IH]; simpl; [exact I|].
  now apply insert_name_ascend.
Qed.

Lemma names_ascend_NoDup (names : list string) :
  Notions.names_ascend names -> NoDup names.
Proof.
  induction names as [|x names IH]; simpl; [constructor|].
  intros [Hx Hs]. constructor; [|now apply IH].
  intros Hin. rewrite Forall_forall in Hx. specialize (Hx x Hin).
  rewrite string_compare_refl in Hx. discriminate.
Qed.

Lemma distinct_NoDup (names : list string) : NoDup (distinct names).
Proof. apply names_ascend_NoDup, distinct_ascend. Qed.

Lemma distinct_players_In (db : Store.Table) (player : string) :
  In player (distinct_players db) <-> Store.rows_of_player player db <> [].
Proof.
  unfold distinct_players, Store.rows_of_player. rewrite distinct_In, in_map_iff. split.
  - intros (r & E & Hr) Hnil.
    assert (Hin : In r (filter (fun r0 => String.eqb (Store.player_name (Store.mention r0))
                                                     player) (Store.rows db))).
    { apply filter_In. split; [exact Hr | now apply String.eqb_eq]. }
    rewrite Hnil in Hin. contradiction.
  - intros Hne.
    destruct (filter (fun r0 => String.eqb (Store.player_name (Store.mention r0)) player)
                     (Store.rows db)) as [|r l] eqn:E; [congruence|].
    assert (Hin : In r (filter (fun r0 => String.eqb (Store.player_name (Store.mention r0))
                                                     player) (Store.rows db)))
      by (rewrite E; now left).
    apply filter_In in Hin. destruct Hin as [Hr En]. apply String.eqb_eq in En.
    now exists r.
Qed.

Lemma shift_of_In (db : Store.Table) (min_shift : float) (player : string) (s : Shift) :
  In s (shift_of sum round3 db min_shift player) ->
  player_name s = player
  /\ exists t,
       Trend.compute_player_trends sum round3 db player = Trend.Found t
       /\ (min_shift <=? magnitude s) = true
       /\ trend s = Trend.trend t
       /\ magnitude s = Trend.trend_magnitude t
       /\ recent_avg s = Trend.recent_avg t
       /\ older_avg s = Trend.older_avg t
       /\ mention_count s = Trend.mention_count t.
Proof.
  unfold shift_of.
  destruct (Trend.compute_player_trends sum round3 db player) as [e | t]; [intros []|].
  destruct (min_shift <=? Trend.trend_magnitude t) eqn:E; [|intros []].
  intros [<- | []]. cbn. split; [reflexivity|]. exists t. repeat split. exact E.
Qed.

Lemma insert_shift_In (x y : Shift) (l : list Shift) :
  In y (insert_shift x l) <-> y = x \/ In y l.
Proof.
  induction l as [|z l IH]; simpl; [intuition congruence|].
  destruct (magnitude x <? magnitude z); simpl; [|intuition congruence].
  rewrite IH. intuition congruence.
Qed.

Lemma sort_by_magnitude_In (y : Shift) (l : list Shift) :
  In y (sort_by_magnitude l) <-> In y l.
Proof.
  induction l as [|x l IH]; simpl; [tauto|].
  rewrite insert_shift_In, IH. intuition congruence.
Qed.

Lemma insert_shift_names (x : Shift) (l : list Shift) :
  NoDup (map player_name (x :: l)) -> NoDup (map player_name (insert_shift x l)).
Proof.
  induction l as [|z l IH]; [auto|]. cbn [insert_shift].
  destruct (magnitude x <? magnitude z); [|auto].
  cbn [map]. intros H. inversion H as [|? ? Hx Hzl]; subst.
  inversion Hzl as [|? ? Hz Hl]; subst.
  constructor.
  - intros Hin. apply in_map_iff in Hin. destruct Hin as (w & Ew & Hw).
    apply insert_shift_In in Hw. destruct Hw as [-> | Hw].
    + apply Hx. left. now symmetry.
    + apply Hz. apply in_map_iff. now exists w.
  - apply IH. cbn [map]. constructor; [|exact Hl].
    intros Hin. apply Hx. now right.
Qed.

Lemma sort_by_magnitude_names (l : list Shift) :
  NoDup (map player_name l) -> NoDup (map player_name (sort_by_magnitude l)).
Proof.
  induction l as [|x l IH]; [auto|]. cbn [sort_by_magnitude fold_right map].
  intros H. cbn [map] in H. inversion H as [|? ? Hx Hl]; subst.
  apply insert_shift_names. cbn [map]. constructor; [|apply IH; exact Hl].
  intros Hin. apply Hx. apply in_map_iff in Hin. destruct Hin as (w & Ew & Hw).
  apply (proj1 (sort_by_magnitude_In _ _)) in Hw. apply in_map_iff. now exists w.
Qed.

Lemma shifts_names (db : Store.Table) (min_shift : float) (players : list string) :
  NoDup players ->
  NoDup (map player_name (flat_map (shift_of sum round3 db min_shift) players)).
Proof.
  induction players as [|p players IH]; [constructor|].
  intros H. inversion H as [|? ? Hp Hl]; subst. cbn [flat_map].
  rewrite map_app. apply NoDup_app.
  - unfold shift_of.
    destruct (Trend.compute_player_trends sum round3 db p); [constructor|].
    destruct (min_shift <=? _); [|constructor].
    cbn. constructor; [intros [] | constructor].
  - now apply IH.
  - intros name H1 H2. apply in_map_iff in H1, H2.
    destruct H1 as (s1 & <- & Hs1). destruct H2 as (s2 & E2 & Hs2).
    apply shift_of_In in Hs1. destruct Hs1 as [E1 _].
    apply in_flat_map in Hs2. destruct Hs2 as (q & Hq & Hs2).
    apply shift_of_In in Hs2. destruct Hs2 as [Eq _].
    apply Hp. congruence.
Qed.

(** X25: every reported shift meets the threshold, and it repeats the trend
    summary of its player: the name is that of a player with a summary, and
    trend, magnitude, averages and count are those of the summary. *)
Theorem shifts_meet_threshold (db : Store.Table) (min_shift : float) (s : Shift) :
  In s (find_sentiment_shifts sum round3 db min_shift) ->
  (min_shift <=? magnitude s) = true
  /\ exists t,
       Trend.compute_player_trends sum round3 db (player_name s) = Trend.Found t
       /\ trend s = Trend.trend t
       /\ magnitude s = Trend.trend_magnitude t
       /\ recent_avg s = Trend.recent_avg t
       /\ older_avg s = Trend.older_avg t
       /\ mention_count s = Trend.mention_count t.
Proof.
  unfold find_sentiment_shifts. intros H.
  apply (proj1 (sort_by_magnitude_In _ _)) in H.
  apply in_flat_map in H. destruct H as (player & _ & H).
  apply shift_of_In in H. destruct H as (<- & t & Ht & Hm & Hrest).
  split; [exact Hm|]. exists t. split; [exact Ht | exact Hrest].
Qed.

(** X26: no player is reported twice. *)
Theorem shifts_list_players_once (db : Store.Table) (min_shift : float) :
  NoDup (map player_name (find_sentiment_shifts sum round3 db min_shift)).
Proof.
  unfold find_sentiment_shifts. apply sort_by_magnitude_names, shifts_names.
  apply distinct_NoDup.
Qed.

(** X27: the players the shift search runs over are the players with a
    stored row, and each of them has a summary: the "error" result of
    the aggregation never comes up in the search. *)
Theorem shift_search_never_misses_data (db : Store.Table) (player : string) :
  (In player (distinct_players db) <-> Store.rows_of_player player db <> [])
  /\ (In player (distinct_players db) ->
      exists t, Trend.compute_player_trends sum round3 db player = Trend.Found t).
Proof.
  split; [apply distinct_players_In|].
  intros H. apply distinct_players_In in H.
  destruct (compute_player_trends_found sum round3 db player) as (t & Ht & _).
  - intros E. apply H. now apply select_player_nil.
  - now exists t.
Qed.

(** X28: a player with at most five stored rows is never reported as
    "improving" or "declining": a shift of such a player, if any, is
    "stable". *)
Theorem shifts_of_few_rows_stable (db : Store.Table) (min_shift : float) (s : Shift) :
  In s (find_sentiment_shifts sum round3 db min_shift) ->
  (List.length (Store.rows_of_player (player_name s) db) <= 5)%nat ->
  trend s = "stable"%string.
Proof.
  unfold find_sentiment_shifts. intros H Hfew.
  apply (proj1 (sort_by_magnitude_In _ _)) in H.
  apply in_flat_map in H. destruct H as (player & _ & H).
  apply shift_of_In in H. destruct H as (<- & t & Ht & _ & -> & _).
  destruct (compute_player_trends_found sum round3 db (player_name s))
    as (t' & Ht' & _ & Htrend).
  - intros E. unfold Trend.compute_player_trends in Ht. rewrite E in Ht. discriminate.
  - rewrite Ht in Ht'. injection Ht' as <-. rewrite Htrend.
    apply few_scores_stable. rewrite length_map, select_player_length. lia.
Qed.

End ShiftFacts.

(** ** The batch pipeline *)

Section PipelineFacts.

Import PyStr PyNum Scorer Aux NotionsScorer Notions Pipeline.

#[local] Open Scope float_scope.

Lemma record_bounds_counts (p n : nat) :
  (p <= List.length POSITIVE_INDICATORS)%nat ->
  (n <= List.length NEGATIVE_INDICATORS)%nat ->
  (-1 <=? branch_score p n) = true
  /\ (branch_score p n <=? 1) = true
  /\ (0.3 <=? branch_confidence p n) = true
  /\ (branch_confidence p n <=? 0.9) = true
  /\ (branch_label p n = "positive"%string
      \/ branch_label p n = "negative"%string
      \/ branch_label p n = "neutral"%string).
Proof.
  intros Hp Hn.
  assert (H : ((-1 <=? branch_score p n) && (branch_score p n <=? 1)
               && (0.3 <=? branch_confidence p n) && (branch_confidence p n <=? 0.9)
               && (String.eqb (branch_label p n) "positive"
                   || String.eqb (branch_label p n) "negative"
                   || String.eqb (branch_label p n) "neutral"))%bool = true).
  { revert p n Hp Hn.
    apply (all_counts_sound
             (fun p n =>
                ((-1 <=? branch_score p n) && (branch_score p n <=? 1)
                 && (0.3 <=? branch_confidence p n) && (branch_confidence p n <=? 0.9)
                 && (String.eqb (branch_label p n) "positive"
                     || String.eqb (branch_label p n) "negative"
                     || String.eqb (branch_label p n) "neutral"))%bool)).
    vm_compute. reflexivity. }
  apply andb_true_iff in H. destruct H as [H H5].
  apply andb_true_iff in H. destruct H as [H H4].
  apply andb_true_iff in H. destruct H as [H H3].
  apply andb_true_iff in H. destruct H as [H1 H2].
  repeat (split; [assumption|]).
  apply orb_true_iff in H5. destruct H5 as [H5 | H5].
  - apply orb_true_iff in H5. destruct H5 as [H5 | H5]; apply String.eqb_eq in H5; auto.
  - apply String.eqb_eq in H5. auto.
Qed.

Lemma kept_counts (p n : nat) :
  (p <= List.length POSITIVE_INDICATORS)%nat ->
  (n <= List.length NEGATIVE_INDICATORS)%nat ->
  kept_by_sqlite (branch_score p n) = true
  /\ kept_by_sqlite (branch_confidence p n) = true.
Proof.
  intros Hp Hn.
  assert (H : (kept_by_sqlite (branch_score p n)
               && kept_by_sqlite (branch_confidence p n))%bool = true).
  { revert p n Hp Hn.
    apply (all_counts_sound
             (fun p n => (kept_by_sqlite (branch_score p n)
                          && kept_by_sqlite (branch_confidence p n))%bool)).
    vm_compute. reflexivity. }
  now apply andb_true_iff in H.
Qed.

(** The score and the confidence of the rule-based scorer are numbers that
    the store keeps as they are. *)
Lemma rules_numbers_kept_by_sqlite (context : string) :
  kept_by_sqlite (score_of (analyze_sentiment_rules context)) = true
  /\ kept_by_sqlite (confidence_of (analyze_sentiment_rules context)) = true.
Proof.
  destruct (analyze_numbers context) as (Hp & Hn & -> & _ & ->).
  exact (kept_counts _ _ Hp Hn).
Qed.

Lemma analyze_indicators_nonempty (context : string) :
  indicators_of (analyze_sentiment_rules context) <> [].
Proof.
  rewrite analyze_unfold.
  destruct (calculate_cases (found POSITIVE_INDICATORS (lower context))
              (found NEGATIVE_INDICATORS (lower context))
              (found NEUTRAL_INDICATORS (lower context)))
    as [(_ & _ & ->) | (H1 & ->)]; cbn [indicators_of].
  - destruct (found NEUTRAL_INDICATORS (lower context)); discriminate.
  - intros E. apply (f_equal (@List.length string)) in E.
    rewrite length_app in E. cbn [List.length] in E. lia.
Qed.

(** The record made for one mention. *)
Lemma analyze_transcript_In (data : TranscriptData) (pm : Store.PlayerMention) :
  In pm (analyze_transcript data) ->
  exists m,
    In m (Locator.extract_player_mentions Roster.PLAYER_TO_TEAM (transcript data) None)
    /\ Store.player_name pm = Locator.player_name m
    /\ Store.team pm = Locator.team m
    /\ Store.context pm = Locator.context m
    /\ Store.video_id pm = video_id data
    /\ Store.coach_name pm
       = match coach_name data with
         | None => Str "Unknown"
         | Some NoneValue => NoneValue
         | Some (Str coach) => Str coach
         end
    /\ Store.date pm = take 10 (published_at data)
    /\ (Store.sentiment_score pm, Store.sentiment_label pm,
        Store.confidence pm, Store.indicators pm)
       = analyze_sentiment_rules (Locator.context m).
Proof.
  unfold analyze_transcript.
  set (mentions := Locator.extract_player_mentions Roster.PLAYER_TO_TEAM
                     (transcript data) None).
  clearbody mentions. intros H. apply in_map_iff in H.
  destruct H as (m & <- & Hm). exists m. split; [exact Hm|].
  destruct (analyze_sentiment_rules (Locator.context m)) as [[[s l] c] i].
  destruct (coach_name data) as [[coach|]|]; repeat split.
Qed.

(** X29: every record made from a transcript carries the video id of the
    file and the first ten characters of its publication time as the date.
    Its coach is what the file holds under [coach_name]: the name, or [None]
    when the file holds [null]; it is "Unknown" only when the file has no
    such key.  Its team is bound to some identifier of the roster index; its
    context has at most 500 characters and is what the score, label,
    confidence and indicators were computed from; the score lies in [-1, 1],
    the confidence in [0.3, 0.9], neither is a NaN or the negative zero, the
    label is one of the three labels and the indicators are not empty. *)
Theorem transcript_records_well_formed (data : TranscriptData)
    (pm : Store.PlayerMention) :
  In pm (analyze_transcript data) ->
  Store.video_id pm = video_id data
  /\ Store.date pm = take 10 (published_at data)
  /\ (len (Store.date pm) <= 10)%nat
  /\ Store.coach_name pm
     = match coach_name data with
       | None => Str "Unknown"
       | Some NoneValue => NoneValue
       | Some (Str coach) => Str coach
       end
  /\ (exists identifier, In (identifier, Store.team pm) Roster.PLAYER_TO_TEAM)
  /\ (len (Store.context pm) <= 500)%nat
  /\ (Store.sentiment_score pm, Store.sentiment_label pm,
      Store.confidence pm, Store.indicators pm)
     = analyze_sentiment_rules (Store.context pm)
  /\ (-1 <=? Store.sentiment_score pm) = true
  /\ (Store.sentiment_score pm <=? 1) = true
  /\ (0.3 <=? Store.confidence pm) = true
  /\ (Store.confidence pm <=? 0.9) = true
  /\ (Store.sentiment_label pm = "positive"%string
      \/ Store.sentiment_label pm = "negative"%string
      \/ Store.sentiment_label pm = "neutral"%string)
  /\ Store.indicators pm <> []
  /\ kept_by_sqlite (Store.sentiment_score pm) = true
  /\ kept_by_sqlite (Store.confidence pm) = true.
Proof.
  intros H. apply analyze_transcript_In in H.
  destruct H as (m & Hm & _ & Et & Ec & Ev & Eco & Ed & Er).
  destruct (extract_In_shape Roster.PLAYER_TO_TEAM (transcript data) None m Hm)
    as (Hctx & identifier & Hin).
  rewrite <- Ec in Er, Hctx.
  destruct (analyze_numbers (Store.context pm)) as (Hp & Hn & Hs & Hl & Hc).
  pose proof (analyze_indicators_nonempty (Store.context pm)) as Hi.
  rewrite <- Er in Hs, Hl, Hc, Hi. cbn [score_of label_of confidence_of indicators_of] in *.
  destruct (record_bounds_counts _ _ Hp Hn) as (B1 & B2 & B3 & B4 & B5).
  destruct (kept_counts _ _ Hp Hn) as (K1 & K2).
  rewrite <- Hs in B1, B2, K1. rewrite <- Hc in B3, B4, K2. rewrite <- Hl in B5.
  split; [exact Ev|]. split; [exact Ed|].
  split; [rewrite Ed; apply len_take|]. split; [exact Eco|].
  split; [exists identifier; rewrite Et; exact Hin|].
  split; [exact Hctx|]. split; [exact Er|].
  split; [exact B1|]. split; [exact B2|]. split; [exact B3|]. split; [exact B4|].
  split; [exact B5|]. split; [exact Hi|]. split; [exact K1 | exact K2].
Qed.

Lemma NoDup_map_refine {A B C : Type} (f : A -> B) (g : A -> C) (l : list A) :
  (forall x y, g x = g y -> f x = f y) ->
  NoDup (map f l) -> NoDup (map g l).
Proof.
  intros Hfg. induction l as [|x l IH]; simpl; [constructor|].
  intros H. inversion H as [|? ? Hx Hl]; subst.
  constructor; [|now apply IH].
  intros Hin. apply Hx. apply in_map_iff in Hin. destruct Hin as (y & E & Hy).
  apply in_map_iff. exists y. split; [now apply Hfg | exact Hy].
Qed.

Lemma batch_keys (data : TranscriptData) :
  map store_key (analyze_transcript data)
  = map (fun m => (video_id data, Locator.player_name m, Locator.context m))
        (Locator.extract_player_mentions Roster.PLAYER_TO_TEAM (transcript data) None).
Proof.
  unfold analyze_transcript.
  set (mentions := Locator.extract_player_mentions Roster.PLAYER_TO_TEAM
                     (transcript data) None).
  clearbody mentions. rewrite map_map. apply map_ext. intros m.
  destruct (analyze_sentiment_rules (Locator.context m)) as [[[s l] c] i]. reflexivity.
Qed.

Lemma batch_keys_distinct (data : TranscriptData) :
  NoDup (map store_key (analyze_transcript data)).
Proof.
  rewrite batch_keys. apply (NoDup_map_refine mention_key).
  - intros x y E. injection E as E1 E2. unfold mention_key. now rewrite E1, E2.
  - apply extract_keys_NoDup.
Qed.

Lemma filter_none_all {A : Type} (p : A -> bool) (l : list A) :
  filter p l = [] -> filter (fun x => negb (p x)) l = l.
Proof.
  induction l as [|x l IH]; simpl; [reflexivity|].
  destruct (p x); [discriminate|]. intros H. simpl. now rewrite IH.
Qed.

Lemma insert_fresh (m : Store.PlayerMention) (now : string) (db : Store.Table) :
  Store.stored m db = [] ->
  map Store.mention (Store.rows (Store.insert_or_replace m now db))
  = (map Store.mention (Store.rows db) ++ [m])%list.
Proof.
  intros H. unfold Store.insert_or_replace. cbn [Store.rows].
  unfold Store.stored in H. rewrite (filter_none_all _ _ H), map_app. reflexivity.
Qed.

Lemma save_from_fresh (utcnow : nat -> string) (ms : list Store.PlayerMention) :
  forall i db,
    NoDup (map store_key ms) ->
    (forall m, In m ms -> Store.stored m db = []) ->
    map Store.mention (Store.rows (Store.save_from utcnow i ms db))
    = (map Store.mention (Store.rows db) ++ ms)%list.
Proof.
  induction ms as [|m ms IH]; intros i db Hnd Hfresh; cbn [Store.save_from].
  - now rewrite app_nil_r.
  - cbn [map] in Hnd. inversion Hnd as [|? ? Hm Hms]; subst.
    rewrite IH; [|exact Hms|].
    + rewrite insert_fresh by (apply Hfresh; now left).
      rewrite <- app_assoc. reflexivity.
    + intros m' Hm'. rewrite insert_frame; [apply Hfresh; now right|].
      apply same_key_false_iff. intros E. apply Hm. rewrite E.
      now apply in_map.
Qed.

(** X30: the records of one transcript never collide on the store key, so
    saving them to a table that holds none of their keys appends them as
    they are, one row each and in order. *)
Theorem transcript_batch_is_appended (utcnow : nat -> string) (data : TranscriptData)
    (db : Store.Table) :
  (forall pm, In pm (analyze_transcript data) -> Store.stored pm db = []) ->
  NoDup (map store_key (analyze_transcript data))
  /\ map Store.mention
         (Store.rows (Store.save_sentiment_results utcnow (analyze_transcript data) db))
     = (map Store.mention (Store.rows db) ++ analyze_transcript data)%list.
Proof.
  intros Hfresh. split; [apply batch_keys_distinct|].
  apply save_from_fresh; [apply batch_keys_distinct | exact Hfresh].
Qed.

End PipelineFacts.

(** ** Worked examples *)

Section Checked.

Import PyStr.

Lemma no_key_occurs (index : Dict.t) (text : string) :
  forallb (fun e => negb (contains (fst e) text)) index = true ->
  forall identifier team,
    In (identifier, team) index -> ~ Spec.occurs_in identifier text.
Proof.
  intros H identifier team Hin Hocc. rewrite forallb_forall in H.
  apply contains_iff in Hocc. specialize (H _ Hin). cbn [fst] in H.
  rewrite Hocc in H. discriminate.
Qed.

Lemma In_pair_checked (a b : string) (l : list (string * string)) :
  existsb (fun e => String.eqb (fst e) a && String.eqb (snd e) b) l = true ->
  In (a, b) l.
Proof.
  rewrite existsb_exists. intros ([x y] & Hin & E). cbn [fst snd] in E.
  apply andb_true_iff in E. destruct E as [E1 E2].
  apply String.eqb_eq in E1, E2. now subst.
Qed.

Lemma same_name_checked (es : list (string * string)) (team player : string) :
  forallb (fun e => implb (String.eqb (lower (snd e)) (lower player))
                          (String.eqb (fst e) team)) es = true ->
  forall t p, In (t, p) es -> lower p = lower player -> t = team.
Proof.
  intros H t p Hin E. rewrite forallb_forall in H. specialize (H _ Hin).
  cbn [fst snd] in H. rewrite E, String.eqb_refl in H. now apply String.eqb_eq.
Qed.

End Checked.

Lemma mention_context_bounded_witness :
  match Locator.extract_player_mentions Roster.PLAYER_TO_TEAM
          (Pipeline.transcript Samples.tatum_file) None with
  | m :: _ => PyStr.len (Locator.context m) <= 500
  | [] => False
  end.
Proof.
  destruct (Locator.extract_player_mentions Roster.PLAYER_TO_TEAM
              (Pipeline.transcript Samples.tatum_file) None) as [|m l] eqn:E.
  - vm_compute in E. discriminate.
  - apply (mention_context_bounded Roster.PLAYER_TO_TEAM
             (Pipeline.transcript Samples.tatum_file) None m).
    rewrite E. now left.
Defined.

Lemma mention_is_whole_word_witness :
  match Locator.extract_player_mentions Roster.PLAYER_TO_TEAM
          (Pipeline.transcript Samples.tatum_file) None with
  | m :: _ =>
      exists identifier,
        In (identifier, Locator.team m) Roster.PLAYER_TO_TEAM
        /\ NotionsMore.whole_word_at identifier
             (PyStr.lower (Pipeline.transcript Samples.tatum_file))
             (Locator.position m)
  | [] => False
  end.
Proof.
  destruct (Locator.extract_player_mentions Roster.PLAYER_TO_TEAM
              (Pipeline.transcript Samples.tatum_file) None) as [|m l] eqn:E.
  - vm_compute in E. discriminate.
  - apply (mention_is_whole_word Roster.PLAYER_TO_TEAM
             (Pipeline.transcript Samples.tatum_file) None m).
    rewrite E. now left.
Defined.

Lemma no_occurrence_no_mention_witness :
  Locator.extract_player_mentions Roster.PLAYER_TO_TEAM "The weather was fine." None = [].
Proof.
  apply (no_occurrence_no_mention Roster.PLAYER_TO_TEAM "The weather was fine." None).
  apply no_key_occurs. vm_compute. reflexivity.
Defined.

Lemma whole_word_is_mentioned_witness :
  exists m,
    In m (Locator.extract_player_mentions Samples.tatum_index
            "Hello there. Tatum played great. Bye now" None)
    /\ Locator.player_name m
       = PyStr.title (Locator.full_name Samples.tatum_index "tatum" "Boston Celtics").
Proof.
  apply (whole_word_is_mentioned Samples.tatum_index
           "Hello there. Tatum played great. Bye now" None
           "tatum" "Boston Celtics" 13).
  - right. now left.
  - split; [vm_compute; lia|]. apply matches_here_iff. vm_compute. reflexivity.
Defined.

Lemma full_name_lookup_witness :
  Dict.get (PyStr.lower "Josh Green") Roster.PLAYER_TO_TEAM = Some "Dallas Mavericks".
Proof.
  apply (full_name_lookup Roster.NBA_ROSTERS Roster.PLAYER_TO_TEAM
           "Dallas Mavericks" "Josh Green").
  - vm_compute. reflexivity.
  - apply In_pair_checked. vm_compute. reflexivity.
  - apply same_name_checked. vm_compute. reflexivity.
Defined.

Lemma index_entries_from_table_witness :
  PyStr.lower "green" = "green"
  /\ exists player,
       In ("Golden State Warriors", player) (Roster.entries Roster.NBA_ROSTERS)
       /\ ("green" = PyStr.lower player \/ Roster.last_name player = Some "green").
Proof.
  apply (index_entries_from_table Roster.NBA_ROSTERS Roster.PLAYER_TO_TEAM
           "green" "Golden State Warriors").
  - vm_compute. reflexivity.
  - apply In_pair_checked. vm_compute. reflexivity.
Defined.

Lemma evaluate_counts_as_negative_witness :
  let r := Scorer.analyze_sentiment_rules "We will evaluate him next week" in
  In "evaluate"
     (Scorer.found Scorer.NEGATIVE_INDICATORS
        (PyStr.lower "We will evaluate him next week"))
  /\ Scorer.indicators_of r
     = (Scorer.found Scorer.POSITIVE_INDICATORS
          (PyStr.lower "We will evaluate him next week")
        ++ Scorer.found Scorer.NEGATIVE_INDICATORS
             (PyStr.lower "We will evaluate him next week"))%list
  /\ In "evaluate" (Scorer.indicators_of r)
  /\ PrimFloat.leb 0.5 (Scorer.confidence_of r) = true.
Proof.
  apply (evaluate_counts_as_negative "We will evaluate him next week").
  apply contains_iff. vm_compute. reflexivity.
Defined.

Lemma saved_batch_last_wins_witness :
  Store.stored (Samples.record "v1" "2024-11-02" 1%float)
    (Store.save_sentiment_results Samples.clock
       ([Samples.record "v1" "2024-11-01" 0%float]
        ++ Samples.record "v1" "2024-11-02" 1%float
        :: [Samples.record "v2" "2024-11-03" 1%float])
       Store.empty)
  = [ {| Store.id := (Store.last_id Store.empty + Z.of_nat 1 + 1)%Z;
         Store.mention := Samples.record "v1" "2024-11-02" 1%float;
         Store.analyzed_at := Samples.clock 1 |} ].
Proof.
  apply (saved_batch_last_wins Samples.clock Store.empty
           [Samples.record "v1" "2024-11-01" 0%float]
           [Samples.record "v2" "2024-11-03" 1%float]
           (Samples.record "v1" "2024-11-02" 1%float)).
  constructor; [vm_compute; reflexivity | constructor].
Defined.

Lemma save_keeps_keys_unique_witness :
  Notions.unique_keys
    (Store.save_sentiment_results Samples.clock
       [Samples.record "v1" "2024-11-01" 0%float;
        Samples.record "v1" "2024-11-02" 1%float]
       Store.empty).
Proof.
  apply (save_keeps_keys_unique Samples.clock
           [Samples.record "v1" "2024-11-01" 0%float;
            Samples.record "v1" "2024-11-02" 1%float]
           Store.empty).
  constructor.
Defined.

Lemma save_keeps_ids_increasing_witness :
  let db' :=
    Store.save_sentiment_results Samples.clock
      [Samples.record "v1" "2024-11-01" 0%float;
       Samples.record "v1" "2024-11-02" 1%float]
      Store.empty in
  Notions.ids_increase 0 (Store.rows db')
  /\ Forall (fun r => (Store.id r <= Store.last_id db')%Z) (Store.rows db')
  /\ Store.last_id db' = (Store.last_id Store.empty + Z.of_nat 2)%Z.
Proof.
  apply (save_keeps_ids_increasing Samples.clock
           [Samples.record "v1" "2024-11-01" 0%float;
            Samples.record "v1" "2024-11-02" 1%float]
           Store.empty 0).
  - exact I.
  - constructor.
  - vm_compute. discriminate.
Defined.

Lemma second_save_adds_no_row_witness :
  let once :=
    Store.save_sentiment_results Samples.clock
      [Samples.record "v1" "2024-11-01" 0%float;
       Samples.record "v2" "2024-11-02" 1%float]
      Store.empty in
  let twice :=
    Store.save_sentiment_results (fun _ => "2024-11-08T08:00:00")
      [Samples.record "v1" "2024-11-01" 0%float;
       Samples.record "v2" "2024-11-02" 1%float]
      once in
  List.length (Store.rows twice) = List.length (Store.rows once)
  /\ Notions.unique_keys twice.
Proof.
  apply (second_save_adds_no_row Samples.clock (fun _ => "2024-11-08T08:00:00")
           [Samples.record "v1" "2024-11-01" 0%float;
            Samples.record "v2" "2024-11-02" 1%float]
           Store.empty).
  constructor.
Defined.

Lemma summary_shape_witness :
  match Trend.compute_player_trends Trend.sum_left (fun x => x)
          Samples.six_rows "Jayson Tatum" with
  | Trend.Found summary =>
      Trend.player_name summary = "Jayson Tatum"
      /\ Trend.mention_count summary = 6
      /\ List.length (Trend.latest_mentions summary) = 5
  | Trend.NoData _ => False
  end.
Proof.
  destruct (Trend.compute_player_trends Trend.sum_left (fun x => x)
              Samples.six_rows "Jayson Tatum") as [e | summary] eqn:E.
  - vm_compute in E. discriminate.
  - destruct (summary_shape Trend.sum_left (fun x => x) Samples.six_rows
                "Jayson Tatum" summary E) as (H1 & H2 & _ & H4 & _).
    split; [exact H1|]. split; [rewrite H2 | rewrite H4]; vm_compute; reflexivity.
Defined.

Lemma shifts_meet_threshold_witness :
  match Shifts.find_sentiment_shifts Trend.sum_left (fun x => x)
          Samples.six_rows 0.5%float with
  | s :: _ =>
      PrimFloat.leb 0.5 (Shifts.magnitude s) = true
      /\ exists t,
           Trend.compute_player_trends Trend.sum_left (fun x => x)
             Samples.six_rows (Shifts.player_name s) = Trend.Found t
           /\ Shifts.trend s = Trend.trend t
           /\ Shifts.magnitude s = Trend.trend_magnitude t
           /\ Shifts.recent_avg s = Trend.recent_avg t
           /\ Shifts.older_avg s = Trend.older_avg t
           /\ Shifts.mention_count s = Trend.mention_count t
  | [] => False
  end.
Proof.
  destruct (Shifts.find_sentiment_shifts Trend.sum_left (fun x => x)
              Samples.six_rows 0.5%float) as [|s l] eqn:E.
  - vm_compute in E. discriminate.
  - apply (shifts_meet_threshold Trend.sum_left (fun x => x) Samples.six_rows
             0.5%float s).
    rewrite E. now left.
Defined.

Lemma shifts_of_few_rows_stable_witness :
  match Shifts.find_sentiment_shifts Trend.sum_left (fun x => x)
          Samples.one_row 0%float with
  | s :: _ => Shifts.trend s = "stable"
  | [] => False
  end.
Proof.
  destruct (Shifts.find_sentiment_shifts Trend.sum_left (fun x => x)
              Samples.one_row 0%float) as [|s l] eqn:E.
  - vm_compute in E. discriminate.
  - apply (shifts_of_few_rows_stable Trend.sum_left (fun x => x) Samples.one_row
             0%float s).
    + rewrite E. now left.
    + vm_compute in E. injection E as <- _. vm_compute. lia.
Defined.

Lemma transcript_records_well_formed_witness :
  match Pipeline.analyze_transcript Samples.tatum_file with
  | pm :: _ =>
      Store.video_id pm = "abc123"
      /\ Store.date pm = "2024-11-02"
      /\ Store.coach_name pm = NoneValue
      /\ PrimFloat.leb (Store.sentiment_score pm) 1 = true
  | [] => False
  end.
Proof.
  destruct (Pipeline.analyze_transcript Samples.tatum_file) as [|pm l] eqn:E.
  - vm_compute in E. discriminate.
  - destruct (transcript_records_well_formed Samples.tatum_file pm)
      as (H1 & H2 & _ & H4 & _ & _ & _ & _ & H9 & _).
    + rewrite E. now left.
    + split; [exact H1|]. split; [exact H2|]. split; [exact H4 | exact H9].
Defined.

Lemma transcript_batch_is_appended_witness :
  map Store.mention
      (Store.rows (Store.save_sentiment_results Samples.clock
                     (Pipeline.analyze_transcript Samples.tatum_file) Store.empty))
  = (map Store.mention (Store.rows Store.empty)
     ++ Pipeline.analyze_transcript Samples.tatum_file)%list.
Proof.
  apply (transcript_batch_is_appended Samples.clock Samples.tatum_file Store.empty).
  intros pm _. reflexivity.
Defined.
